(** * A swap and quote service over Uniswap V3: model of [app.js]

    The development embeds the decision logic of [app.js]: token resolution
    ([toAddress]), decimal-aware amount conversion ([getTokenDecimals],
    [parseAmountIn]), fee-tier discovery ([getBestQuote]), the slippage policy
    ([calculateSlippage] and the minimum-output computation) and the two
    request handlers ([/swap], [/quote]).

    JavaScript numbers are IEEE-754 doubles and are modelled by Rocq's
    primitive binary64 floats; [BigNumber] values of ethers v5 are
    arbitrary-precision integers and are modelled by [Z]; strings are
    modelled by [string], with ASCII case mapping. *)

From Stdlib Require Import ZArith Bool List Lia.
From Stdlib Require Import Ascii String DecimalString.
From Stdlib Require DecimalFacts DecimalPos.
From Stdlib Require Import Floats.PrimFloat Floats.FloatOps Floats.SpecFloat.
Import ListNotations.

Set Warnings "-inexact-float".

Local Open Scope string_scope.
Local Open Scope Z_scope.

(** ** Exceptions *)

(** A thrown JavaScript value.  [Error m] is [new Error(m)] as [app.js]
    throws it, and also any rejection reported by the provider; [LoggerError]
    is an error made by ethers' logger, which carries a code and a reason. *)
Inductive exn : Type :=
| Error (message : string)
| LoggerError (code reason : string).

(** [error.message]; for a logger error ethers appends diagnostic
    parameters to the reason, which are left out here. *)
Definition message (e : exn) : string :=
  match e with
  | Error m => m
  | LoggerError _ reason => reason
  end.

Definition result (A : Type) : Type := (exn + A)%type.

Definition ok {A} (a : A) : result A := inr a.
Definition throw {A} (e : exn) : result A := inl e.

Definition rbind {A B} (r : result A) (k : A -> result B) : result B :=
  match r with
  | inl e => inl e
  | inr a => k a
  end.

Declare Scope result_scope.
Delimit Scope result_scope with result.
Notation "'let?' x ':=' r 'in' k" := (rbind r (fun x => k))
  (at level 10, x name, r at level 100, k at level 200) : result_scope.

(** ** JavaScript strings and numbers *)

Module JS.

(** A header or a body field of a request: a string when it is present,
    [None] for [undefined] and [null].  Fields of another JSON type are
    left out of the model. *)
Definition value : Type := option string.

(** [!v] for a value that is a string, [undefined] or [null]. *)
Definition falsy (v : value) : bool :=
  match v with
  | None => true
  | Some s => String.eqb s ""
  end.

(** The string a truthy value holds. *)
Definition str (v : value) : string :=
  match v with
  | None => ""
  | Some s => s
  end.

Definition is_upper (c : ascii) : bool :=
  ((65 <=? N_of_ascii c) && (N_of_ascii c <=? 90))%N.

Definition lower_char (c : ascii) : ascii :=
  if is_upper c then ascii_of_N (N_of_ascii c + 32) else c.

(** [String.prototype.toLowerCase] on ASCII text. *)
Fixpoint toLowerCase (s : string) : string :=
  match s with
  | EmptyString => EmptyString
  | String c r => String (lower_char c) (toLowerCase r)
  end.

(** A JavaScript number. *)
Definition number : Type := float.

Definition is_neg_zero (x : number) : bool :=
  (is_zero x && get_sign x)%bool.

(** [Math.min] of two numbers: NaN if either is NaN, and [-0 < +0]. *)
Definition Math_min (a b : number) : number :=
  if (is_nan a || is_nan b)%bool then nan
  else if (a <? b)%float then a
  else if (b <? a)%float then b
  else if is_neg_zero a then a else b.

End JS.

(** ** The ethers v5 functions [app.js] calls *)

Module Ethers.

Definition NUMERIC_FAULT : string := "NUMERIC_FAULT".
Definition INVALID_ARGUMENT : string := "INVALID_ARGUMENT".

(** [BigNumber]: an integer of arbitrary precision. *)
Definition BigNumber : Type := Z.

(** [0x1fffffffffffff], the bound of [BigNumber.from] on numbers. *)
Definition MAX_SAFE : Z := 9007199254740991.

Definition signed (s : bool) (z : Z) : Z := if s then - z else z.

Definition check_safe (z : Z) : result BigNumber :=
  if (MAX_SAFE <=? z) || (z <=? - MAX_SAFE)
  then throw (LoggerError NUMERIC_FAULT "overflow")
  else ok z.

(** [BigNumber.from(value)] for a [value] of type number: a number with a
    fractional part is an [underflow] fault, one at or beyond [MAX_SAFE]
    an [overflow] fault. *)
Definition from_number (v : JS.number) : result BigNumber :=
  match Prim2SF v with
  | S754_zero _ => ok 0
  | S754_finite s m e =>
      if 0 <=? e then check_safe (signed s (Zpos m * 2 ^ e))
      else if Zpos m mod 2 ^ (- e) =? 0
           then check_safe (signed s (Zpos m / 2 ^ (- e)))
           else throw (LoggerError NUMERIC_FAULT "underflow")
  | S754_infinity _ => throw (LoggerError NUMERIC_FAULT "overflow")
  | S754_nan => throw (LoggerError INVALID_ARGUMENT "invalid BigNumber string")
  end.

(** [a.mul(other)] and [a.div(other)] with [other] given as a number;
    [div] truncates toward zero. *)
Definition mul (a : BigNumber) (other : JS.number) : result BigNumber :=
  (let? o := from_number other in ok (a * o))%result.

Definition div (a : BigNumber) (other : JS.number) : result BigNumber :=
  (let? o := from_number other in
   if o =? 0 then throw (LoggerError NUMERIC_FAULT "division-by-zero")
   else ok (Z.quot a o))%result.

(** [a.lt(b)]. *)
Definition lt (a b : BigNumber) : bool := a <? b.

(** [a.toString()]: the decimal digits, with a leading [-] when negative. *)
Definition toString (a : BigNumber) : string :=
  NilZero.string_of_int (Z.to_int a).

Definition MaxUint256 : BigNumber := 2 ^ 256 - 1.

(** *** Decimal strings *)

Definition is_digit (c : ascii) : bool :=
  ((48 <=? N_of_ascii c) && (N_of_ascii c <=? 57))%N.

Definition is_dot (c : ascii) : bool := Ascii.eqb c ".".

Definition digit_value (c : ascii) : Z := Z.of_N (N_of_ascii c) - 48.

Fixpoint all_chars (p : ascii -> bool) (s : string) : bool :=
  match s with
  | EmptyString => true
  | String c r => p c && all_chars p r
  end.

(** [value.substring(0, 1) === "-"] and [value.substring(1)]. *)
Definition starts_with_minus (value : string) : bool :=
  match value with
  | String c _ => Ascii.eqb c "-"
  | EmptyString => false
  end.

Definition tail (value : string) : string :=
  match value with
  | String _ r => r
  | EmptyString => ""
  end.

(** The value of a string of decimal digits, read left to right from
    the accumulator [acc]. *)
Fixpoint digits_from (acc : Z) (s : string) : Z :=
  match s with
  | EmptyString => acc
  | String c r => digits_from (10 * acc + digit_value c) r
  end.

(** [BigNumber.from(value)] for a string in decimal notation,
    [/^-?[0-9]+$/]; any other string is reported as invalid here. *)
Definition from_string (value : string) : result BigNumber :=
  let negative := starts_with_minus value in
  let digits := if negative then tail value else value in
  if negb (String.eqb digits "") && all_chars is_digit digits
  then ok (if negative then - digits_from 0 digits else digits_from 0 digits)
  else throw (LoggerError INVALID_ARGUMENT "invalid BigNumber string").

Fixpoint zeros (n : nat) : string :=
  match n with
  | O => ""
  | S k => String "0" (zeros k)
  end.

(** [getMultiplier(decimals)]: the string ["1"] followed by [decimals]
    zeros, for a precision between 0 and 256. *)
Definition getMultiplier (decimals : Z) : result string :=
  if (0 <=? decimals) && (decimals <=? 256)
  then ok (String "1" (zeros (Z.to_nat decimals)))
  else throw (LoggerError INVALID_ARGUMENT "invalid decimal size").

(** [value.match(/^-?[0-9.]+$/)]. *)
Definition matches_decimal (value : string) : bool :=
  let body := if starts_with_minus value then tail value else value in
  negb (String.eqb body "") && all_chars (fun c => is_digit c || is_dot c) body.

(** [value.split(".")]. *)
Fixpoint split_dot (s : string) : list string :=
  match s with
  | EmptyString => [""]
  | String c r =>
      if is_dot c then "" :: split_dot r
      else match split_dot r with
           | h :: t => String c h :: t
           | [] => [String c ""]
           end
  end.

(** The string left by
    [while (s[s.length - 1] === "0") s = s.substring(0, s.length - 1)]. *)
Fixpoint trim_zeros (s : string) : string :=
  match s with
  | EmptyString => ""
  | String c r =>
      match trim_zeros r with
      | EmptyString => if Ascii.eqb c "0" then "" else String c ""
      | r' => String c r'
      end
  end.

Definition len (s : string) : Z := Z.of_nat (String.length s).

(** [while (s.length < n) s += "0"] and [while (s.length < n) s = "0" + s]. *)
Definition pad_right (s : string) (n : Z) : string :=
  s ++ zeros (Z.to_nat (n - len s)).
Definition pad_left (s : string) (n : Z) : string :=
  zeros (Z.to_nat (n - len s)) ++ s.

Definition or_zero (s : string) : string :=
  if String.eqb s "" then "0" else s.

(** [parseFixed(value, decimals)]. *)
Definition parseFixed (value : string) (decimals : Z) : result BigNumber :=
  (let? multiplier := getMultiplier decimals in
   if negb (matches_decimal value)
   then throw (LoggerError INVALID_ARGUMENT "invalid decimal value")
   else
     let negative := starts_with_minus value in
     let value := if negative then tail value else value in
     if String.eqb value "."
     then throw (LoggerError INVALID_ARGUMENT "missing value")
     else
       let comps := split_dot value in
       if (2 <? List.length comps)%nat
       then throw (LoggerError INVALID_ARGUMENT "too many decimal points")
       else
         let whole := or_zero (nth 0 comps "") in
         let fraction := or_zero (nth 1 comps "") in
         let fraction := trim_zeros fraction in
         if len multiplier - 1 <? len fraction
         then throw (LoggerError NUMERIC_FAULT
                       "fractional component exceeds decimals")
         else
           let fraction := or_zero fraction in
           let fraction := pad_right fraction (len multiplier - 1) in
           let? wholeValue := from_string whole in
           let? fractionValue := from_string fraction in
           let? scale := from_string multiplier in
           let wei := wholeValue * scale + fractionValue in
           ok (if negative then wei * -1 else wei))%result.

(** The first group of the match that strips the trailing zeros of
    [fraction], a non-empty string of digits: the digits up to the last
    non-zero one, or ["0"] when there is none. *)
Definition strip_fraction (fraction : string) : string :=
  or_zero (trim_zeros fraction).

(** [formatFixed(value, decimals)]. *)
Definition formatFixed (value : BigNumber) (decimals : Z) : result string :=
  (let? multiplier := getMultiplier decimals in
   let negative := value <? 0 in
   let value := if negative then value * -1 else value in
   let? scale := from_string multiplier in
   let fraction := toString (value mod scale) in
   let fraction := pad_left fraction (len multiplier - 1) in
   let fraction := strip_fraction fraction in
   let whole := toString (Z.quot value scale) in
   let text := if len multiplier =? 1 then whole
               else whole ++ "." ++ fraction in
   ok (if negative then "-" ++ text else text))%result.

(** [utils.parseUnits(value, decimals)] and
    [utils.formatUnits(value, decimals)] with a numeric precision. *)
Definition parseUnits (value : string) (decimals : Z) : result BigNumber :=
  parseFixed value decimals.
Definition formatUnits (value : BigNumber) (decimals : Z) : result string :=
  formatFixed value decimals.

End Ethers.

(** ** Constants of [app.js] *)

Definition UNISWAP_V3_ROUTER_ADDRESS : string :=
  "0xE592427A0AEce92De3Edee1F18E0157C05861564".
Definition QUOTER_ADDRESS : string :=
  "0xb27308f9F90D607463bb33eA1BeBb41C27CE5AB6".
Definition feeTiers : list Z := [500; 3000; 10000].
Definition MAX_GAS_LIMIT : Z := 300000.
Definition WETH_ADDRESS : string :=
  "0xC02aaA39b223FE8D0A0e5C4F27eAD9083C756Cc2".

(** ** Token resolution *)

Definition toAddress (tokenStr : JS.value) : result string :=
  if JS.falsy tokenStr then throw (Error "Invalid token string")
  else
    let lower := JS.toLowerCase (JS.str tokenStr) in
    ok (if String.eqb lower "eth" then WETH_ADDRESS else JS.str tokenStr).

(** ** Slippage policy *)

Definition BASE_SLIPPAGE : JS.number := 0.005%float.
Definition MAX_SLIPPAGE : JS.number := 0.03%float.

Definition calculateSlippage (tokenIn tokenOut : string) : JS.number :=
  if String.eqb (JS.toLowerCase tokenIn) (JS.toLowerCase WETH_ADDRESS)
     && String.eqb (JS.toLowerCase tokenOut) "usdt"
  then BASE_SLIPPAGE
  else if String.eqb (JS.toLowerCase tokenIn) (JS.toLowerCase WETH_ADDRESS)
          || String.eqb (JS.toLowerCase tokenOut) (JS.toLowerCase WETH_ADDRESS)
  then JS.Math_min (BASE_SLIPPAGE * 2)%float MAX_SLIPPAGE
  else MAX_SLIPPAGE.

(** [amountOut.mul(100 - (dynamicSlippage * 100)).div(100)] of [/swap]. *)
Definition amountOutMinimum (amountOut : Ethers.BigNumber)
    (dynamicSlippage : JS.number) : result Ethers.BigNumber :=
  (let? scaled := Ethers.mul amountOut (100 - dynamicSlippage * 100)%float in
   Ethers.div scaled 100%float)%result.

(** ** The network *)

(** A transaction handle as the provider returns it, and the receipt of a
    mined transaction. *)
Record Tx : Type := { hash : string }.
Record Receipt : Type := { transactionHash : string }.

(** The payload of the router's [exactInputSingle]. *)
Record SwapParams : Type := {
  p_tokenIn : string;
  p_tokenOut : string;
  p_fee : Z;
  p_recipient : string;
  p_deadline : Z;
  p_amountIn : Ethers.BigNumber;
  p_amountOutMinimum : Ethers.BigNumber;
  p_sqrtPriceLimitX96 : Z
}.

(** The calls [app.js] awaits, indexed by the type of what they resolve
    to.  Every one of them is a round trip to the JSON-RPC endpoint. *)
Inductive Call : Type -> Type :=
| Decimals (token : string) : Call Z
| BalanceOf (token owner : string) : Call Ethers.BigNumber
| Allowance (token owner spender : string) : Call Ethers.BigNumber
| Approve (token spender : string) (amount : Ethers.BigNumber) : Call Tx
| Wait (tx : Tx) : Call Receipt
| QuoteExactInputSingle (quoter tokenIn tokenOut : string) (fee : Z)
    (amountIn : Ethers.BigNumber) (sqrtPriceLimitX96 : Z) : Call Ethers.BigNumber
| ExactInputSingle (router : string) (params : SwapParams)
    (gasLimit value : Ethers.BigNumber) : Call Tx.

(** A call that was made, with what it resolved to or was rejected with. *)
Inductive Event : Type :=
| Ev {T : Type} (c : Call T) (r : result T).

(** A line written to the console: the text, and the error object printed
    after it when there is one. *)
Definition Line : Type := (string * option exn)%type.

(** ** Handlers as state transformers *)

Section App.

(** The state of everything outside the process: the chain behind the
    provider, and the wall clock. *)
Variable Chain : Type.

(** What a call resolves to, or is rejected with, and the state after. *)
Variable rpc : forall T : Type, Call T -> Chain -> result T * Chain.

(** [Date.now()], in milliseconds. *)
Variable Date_now : Chain -> Z.

(** The address of [new ethers.Wallet(privateKey, provider)]; the
    constructor throws on a malformed key. *)
Variable Wallet : string -> result string.

Record World : Type := {
  chain : Chain;
  trace : list Event;
  console : list Line
}.

Definition M (A : Type) : Type := World -> result A * World.

Definition ret {A} (a : A) : M A := fun w => (ok a, w).

Definition raise {A} (e : exn) : M A := fun w => (throw e, w).

Definition bind {A B} (m : M A) (k : A -> M B) : M B :=
  fun w =>
    match m w with
    | (inl e, w') => (inl e, w')
    | (inr a, w') => k a w'
    end.

Definition lift {A} (r : result A) : M A := fun w => (r, w).

(** [await] of a call: the call is answered by the network and recorded. *)
Definition await {T} (c : Call T) : M T :=
  fun w =>
    let (r, ch) := rpc T c (chain w) in
    (r, {| chain := ch; trace := trace w ++ [Ev c r]; console := console w |}).

Definition console_log (text : string) (err : option exn) : M unit :=
  fun w =>
    (ok tt, {| chain := chain w; trace := trace w;
               console := console w ++ [(text, err)] |}).

Definition now : M Z := fun w => (ok (Date_now (chain w)), w).

Notation "x <- m ;; k" := (bind m (fun x => k))
  (at level 61, m at next level, right associativity).
Notation "m ;;; k" := (bind m (fun _ => k))
  (at level 61, right associativity).

(** *** Amount normalisation *)

Definition getTokenDecimals (tokenAddress : string) : M Z :=
  let lower := JS.toLowerCase tokenAddress in
  if String.eqb lower (JS.toLowerCase WETH_ADDRESS) then ret 18
  else await (Decimals tokenAddress).

Definition parseAmountIn (amountInString tokenInString : JS.value)
  : M Ethers.BigNumber :=
  if JS.falsy amountInString then raise (Error "Missing amountIn")
  else
    tokenAddress <- lift (toAddress tokenInString) ;;
    decimals <- getTokenDecimals tokenAddress ;;
    lift (Ethers.parseUnits (JS.str amountInString) decimals).

(** *** Fee-tier discovery *)

(** The body of [for (let fee of tiers)] in [getBestQuote], and the
    [throw] that follows the loop. *)
Fixpoint tryTiers (tiers : list Z) (tokenInAddress tokenOutAddress : string)
    (amountInWei : Ethers.BigNumber) : M (Z * Ethers.BigNumber) :=
  match tiers with
  | [] => raise (Error "No valid liquidity pool found.")
  | fee :: rest =>
      fun w =>
        match await (QuoteExactInputSingle QUOTER_ADDRESS tokenInAddress
                       tokenOutAddress fee amountInWei 0) w with
        | (inr amountOut, w') =>
            (console_log ("Fee tier " ++ Ethers.toString fee
                            ++ " => Output (raw): "
                            ++ Ethers.toString amountOut) None ;;;
             ret (fee, amountOut)) w'
        | (inl error, w') =>
            (console_log ("Fee tier " ++ Ethers.toString fee ++ " failed: "
                            ++ message error) None ;;;
             tryTiers rest tokenInAddress tokenOutAddress amountInWei) w'
        end
  end.

Definition getBestQuote (tokenInAddress tokenOutAddress : string)
    (amountInWei : Ethers.BigNumber) : M (Z * Ethers.BigNumber) :=
  tryTiers feeTiers tokenInAddress tokenOutAddress amountInWei.

(** *** Requests and responses *)

Record Request : Type := {
  authorization : JS.value;
  amountIn : JS.value;
  tokenIn : JS.value;
  tokenOut : JS.value
}.

Inductive Json : Type :=
| JError (error : string)
| JSwap (transactionHash : string)
| JQuote (feeTier : Z) (amountOut amountOutRaw : string).

Record Response : Type := { status : Z; json : Json }.

(** *** POST /swap *)

(** The [try] block of the handler. *)
Definition swap_try (req : Request) : M Response :=
  wallet <- lift (Wallet (JS.str (authorization req))) ;;
  tokenInAddress <- lift (toAddress (tokenIn req)) ;;
  tokenOutAddress <- lift (toAddress (tokenOut req)) ;;
  amountInWei <- parseAmountIn (amountIn req) (tokenIn req) ;;
  let valueToSend := 0 in
  balance <- await (BalanceOf tokenInAddress wallet) ;;
  if Ethers.lt balance amountInWei
  then ret {| status := 400; json := JError "Insufficient token balance." |}
  else
    allowance <- await (Allowance tokenInAddress wallet
                          UNISWAP_V3_ROUTER_ADDRESS) ;;
    (if Ethers.lt allowance amountInWei
     then
       approveTx <- await (Approve tokenInAddress UNISWAP_V3_ROUTER_ADDRESS
                             Ethers.MaxUint256) ;;
       await (Wait approveTx) ;;;
       console_log "Approval complete." None
     else ret tt) ;;;
    quote <- getBestQuote tokenInAddress tokenOutAddress amountInWei ;;
    let (fee, amountOut) := quote in
    let dynamicSlippage := calculateSlippage tokenInAddress tokenOutAddress in
    amountOutMinimum <- lift (amountOutMinimum amountOut dynamicSlippage) ;;
    ms <- now ;;
    let params := {|
      p_tokenIn := tokenInAddress;
      p_tokenOut := tokenOutAddress;
      p_fee := fee;
      p_recipient := wallet;
      p_deadline := ms / 1000 + 300;
      p_amountIn := amountInWei;
      p_amountOutMinimum := amountOutMinimum;
      p_sqrtPriceLimitX96 := 0
    |} in
    swapTx <- await (ExactInputSingle UNISWAP_V3_ROUTER_ADDRESS params
                       MAX_GAS_LIMIT valueToSend) ;;
    receipt <- await (Wait swapTx) ;;
    ret {| status := 200; json := JSwap (transactionHash receipt) |}.

(** [try { ... } catch (error) { console.error(text, error); 500 }]. *)
Definition catch500 (text : string) (body : M Response)
  : World -> Response * World :=
  fun w =>
    match body w with
    | (inr response, w') => (response, w')
    | (inl error, w') =>
        ({| status := 500; json := JError (message error) |},
         snd (console_log text (Some error) w'))
    end.

Definition missing_parameters (req : Request) : bool :=
  JS.falsy (amountIn req) || JS.falsy (tokenIn req) || JS.falsy (tokenOut req).

Definition swap (req : Request) : World -> Response * World :=
  if JS.falsy (authorization req)
  then fun w =>
    ({| status := 401;
        json := JError "Private key required in Authorization header" |}, w)
  else if missing_parameters req
  then fun w =>
    ({| status := 400;
        json := JError "Missing required parameters in request body" |}, w)
  else catch500 "Error executing swap:" (swap_try req).

(** *** POST /quote *)

Definition quote_try (req : Request) : M Response :=
  tokenInAddress <- lift (toAddress (tokenIn req)) ;;
  tokenOutAddress <- lift (toAddress (tokenOut req)) ;;
  amountInWei <- parseAmountIn (amountIn req) (tokenIn req) ;;
  quote <- getBestQuote tokenInAddress tokenOutAddress amountInWei ;;
  let (fee, amountOut) := quote in
  outDecimals <- getTokenDecimals tokenOutAddress ;;
  amountOutFormatted <- lift (Ethers.formatUnits amountOut outDecimals) ;;
  ret {| status := 200;
         json := JQuote fee amountOutFormatted (Ethers.toString amountOut) |}.

Definition quote (req : Request) : World -> Response * World :=
  if missing_parameters req
  then fun w =>
    ({| status := 400;
        json := JError "Missing required parameters in request body" |}, w)
  else catch500 "Error getting quote:" (quote_try req).

End App.

Arguments chain {Chain} _.
Arguments trace {Chain} _.
Arguments console {Chain} _.
Arguments Build_World {Chain} _ _ _.
Arguments ret {Chain A} _ _.
Arguments raise {Chain A} _ _.
Arguments lift {Chain A} _ _.
Arguments bind {Chain A B} _ _ _.
Arguments console_log {Chain} _ _ _.
Arguments now {Chain} _ _.
Arguments await {Chain} rpc {T} _ _.
Arguments getTokenDecimals {Chain} rpc _ _.
Arguments parseAmountIn {Chain} rpc _ _ _.
Arguments tryTiers {Chain} rpc _ _ _ _ _.
Arguments getBestQuote {Chain} rpc _ _ _ _.
Arguments swap_try {Chain} rpc Date_now Wallet _ _.
Arguments catch500 {Chain} _ _ _.
Arguments swap {Chain} rpc Date_now Wallet _ _.
Arguments quote_try {Chain} rpc _ _.
Arguments quote {Chain} rpc _ _.

(** ** Vocabulary of the properties *)

(** Two strings are equal up to the case of their letters. *)
Fixpoint eq_nocase (s t : string) : bool :=
  match s, t with
  | EmptyString, EmptyString => true
  | String a s', String b t' =>
      Ascii.eqb (JS.lower_char a) (JS.lower_char b) && eq_nocase s' t'
  | _, _ => false
  end.

(** The reserved alias of the wrapped-native token, and the identifier of
    the stable asset, as the source spells them. *)
Definition NATIVE_ALIAS : string := "eth".
Definition STABLE_ASSET : string := "usdt".

(** Which operation an awaited call is. *)
Inductive Kind : Type :=
| KDecimals | KBalanceOf | KAllowance | KApprove | KWait | KQuote | KSwap.

Definition kind_of {T} (c : Call T) : Kind :=
  match c with
  | Decimals _ => KDecimals
  | BalanceOf _ _ => KBalanceOf
  | Allowance _ _ _ => KAllowance
  | Approve _ _ _ => KApprove
  | Wait _ => KWait
  | QuoteExactInputSingle _ _ _ _ _ _ => KQuote
  | ExactInputSingle _ _ _ _ => KSwap
  end.

Definition kind (ev : Event) : Kind :=
  match ev with Ev c _ => kind_of c end.

Definition rejected (ev : Event) : Prop :=
  match ev with Ev _ r => exists e, r = inl e end.

Definition failed {A} (r : result A) : Prop := exists e, r = inl e.

(** The probe of one fee tier by [getBestQuote], as it shows in the trace. *)
Definition probe (tokenIn tokenOut : string) (amountIn : Ethers.BigNumber)
    (attempt : Z * result Ethers.BigNumber) : Event :=
  Ev (QuoteExactInputSingle QUOTER_ADDRESS tokenIn tokenOut (fst attempt)
        amountIn 0) (snd attempt).

Definition attempt_failed (attempt : Z * result Ethers.BigNumber) : Prop :=
  failed (snd attempt).

(** A string in address form: it starts with [0x]. *)
Definition address_form (s : string) : bool :=
  match s with
  | String c (String d _) => Ascii.eqb c "0" && Ascii.eqb d "x"
  | _ => false
  end.

(** The tier a fee-tier probe asks about. *)
Definition probes_tier (fee : Z) (ev : Event) : Prop :=
  match ev with
  | Ev c _ =>
      match c with
      | QuoteExactInputSingle _ _ _ f _ _ => f = fee
      | _ => False
      end
  end.

(** Every configured tier has a probe that was rejected. *)
Definition all_tiers_rejected (evs : list Event) : Prop :=
  forall fee, In fee feeTiers ->
              exists ev, In ev evs /\ rejected ev /\ probes_tier fee ev.

(** A computation only adds events to the trace, and what it adds relates
    to its outcome as [Q] says. *)
Definition emits {Chain A} (m : World Chain -> result A * World Chain)
    (Q : result A -> list Event -> Prop) : Prop :=
  forall w, exists evs,
    trace (snd (m w)) = (trace w ++ evs)%list /\ Q (fst (m w)) evs.

(** No fee-tier probe is made, and a rejected call is an exception. *)
Definition quiet {A} (r : result A) (evs : list Event) : Prop :=
  forall ev, In ev evs -> kind ev <> KQuote /\ (rejected ev -> failed r).

(** A rejected call other than a probe is an exception, and so is the
    rejection of a probe of every tier, with the no-liquidity error. *)
Definition strict {A} (r : result A) (evs : list Event) : Prop :=
  (forall ev, In ev evs -> rejected ev -> kind ev <> KQuote -> failed r) /\
  (all_tiers_rejected evs -> r = throw (Error "No valid liquidity pool found.")).

(** The number a string of decimal digits denotes, and the strings that
    consist of decimal digits. *)
Definition decimal_value (s : string) : Z := Ethers.digits_from 0 s.

Definition decimal_digits (s : string) : Prop :=
  Ethers.all_chars Ethers.is_digit s = true.

(** The number a list of decimal digits denotes, read from [acc]. *)
Fixpoint uint_value (acc : Z) (d : Decimal.uint) : Z :=
  match d with
  | Decimal.Nil => acc
  | Decimal.D0 l => uint_value (10 * acc + 0) l
  | Decimal.D1 l => uint_value (10 * acc + 1) l
  | Decimal.D2 l => uint_value (10 * acc + 2) l
  | Decimal.D3 l => uint_value (10 * acc + 3) l
  | Decimal.D4 l => uint_value (10 * acc + 4) l
  | Decimal.D5 l => uint_value (10 * acc + 5) l
  | Decimal.D6 l => uint_value (10 * acc + 6) l
  | Decimal.D7 l => uint_value (10 * acc + 7) l
  | Decimal.D8 l => uint_value (10 * acc + 8) l
  | Decimal.D9 l => uint_value (10 * acc + 9) l
  end.

(** The calls of the swap pipeline that come after the balance check. *)
Definition after_balance_check (ev : Event) : Prop :=
  In (kind ev) [KAllowance; KApprove; KWait; KQuote; KSwap].

(** ** The order of calls and the console *)

Definition Kind_eqb (a b : Kind) : bool :=
  match a, b with
  | KDecimals, KDecimals | KBalanceOf, KBalanceOf | KAllowance, KAllowance
  | KApprove, KApprove | KWait, KWait | KQuote, KQuote | KSwap, KSwap => true
  | _, _ => false
  end.

(** [ks] can be read off [pattern] from left to right, skipping entries. *)
Fixpoint in_order (ks pattern : list Kind) : bool :=
  match ks, pattern with
  | [], _ => true
  | _ :: _, [] => false
  | k :: ks', p :: pattern' =>
      if Kind_eqb k p then in_order ks' pattern' else in_order ks pattern'
  end.

(** The calls of [/swap] and of [/quote], in the order of the source. *)
Definition swap_calls : list Kind :=
  [KDecimals; KBalanceOf; KAllowance; KApprove; KWait;
   KQuote; KQuote; KQuote; KSwap; KWait].

Definition quote_calls : list Kind :=
  [KDecimals; KQuote; KQuote; KQuote; KDecimals].


(** A console line without an error object, and the line [getBestQuote]
    writes for a probe and its outcome. *)
Definition plain (line : Line) : Prop := snd line = None.

Definition tier_line (attempt : Z * result Ethers.BigNumber) : Line :=
  match snd attempt with
  | inr amountOut =>
      (("Fee tier " ++ Ethers.toString (fst attempt) ++ " => Output (raw): "
          ++ Ethers.toString amountOut)%string, None)
  | inl error =>
      (("Fee tier " ++ Ethers.toString (fst attempt) ++ " failed: "
          ++ message error)%string, None)
  end.

(** A computation only adds lines to the console, all of them plain. *)
Definition prints {Chain A} (m : World Chain -> result A * World Chain) : Prop :=
  forall w, exists lines,
    console (snd (m w)) = (console w ++ lines)%list /\ Forall plain lines.

(** ** A scripted network for concrete runs *)

Module Mock.

Definition Chain : Type := unit.

Definition TOKEN6 : string := "0xA0b86991c6218b36c1d19D4a2e9Eb0cE3606eB48".
Definition TOKEN8 : string := "0xTOKEN".
Definition SIGNER : string := "0x70997970C51812dc3A010C7d01b50e0d17dc79C8".

Definition reverted {A} : result A := throw (Error "call revert exception").

(** The network answers [decimals] for two known tokens, reports one
    balance and one allowance for every holder, mines every transaction,
    and quotes as [quotes] says, tier by tier. *)
Definition rpc (quotes : Z -> result Ethers.BigNumber)
    (balance allowance : Ethers.BigNumber)
    (T : Type) (c : Call T) (ch : Chain) : result T * Chain :=
  match c in Call T return result T * Chain with
  | Decimals token =>
      (if String.eqb token TOKEN6 then ok 6
       else if String.eqb token TOKEN8 then ok 8 else reverted, ch)
  | BalanceOf _ _ => (ok balance, ch)
  | Allowance _ _ _ => (ok allowance, ch)
  | Approve _ _ _ => (ok {| hash := "0xa1" |}, ch)
  | Wait tx => (ok {| transactionHash := hash tx |}, ch)
  | QuoteExactInputSingle _ _ _ fee _ _ => (quotes fee, ch)
  | ExactInputSingle _ _ _ _ => (ok {| hash := "0xb2" |}, ch)
  end.

Definition Date_now (ch : Chain) : Z := 1700000000000.

Definition KEY : string :=
  "0x59c6995e998f97a5a0044966f0945389dc9e86dae88c7a8412f4603b6b78690d".

Definition Wallet (privateKey : string) : result string :=
  if String.eqb privateKey KEY then ok SIGNER
  else throw (LoggerError Ethers.INVALID_ARGUMENT "invalid private key").

(** Tier 500 has no pool, tier 3000 quotes [5000000000]. *)
Definition quotes_3000 (fee : Z) : result Ethers.BigNumber :=
  if fee =? 3000 then ok 5000000000 else reverted.

(** Tiers 500 and 3000 have no pool, tier 10000 quotes [1000000]. *)
Definition quotes_10000 (fee : Z) : result Ethers.BigNumber :=
  if fee =? 10000 then ok 1000000 else reverted.

Definition no_quotes (fee : Z) : result Ethers.BigNumber := reverted.

Definition start : World Chain :=
  {| chain := tt; trace := []; console := [] |}.

Definition request (key amount tin tout : string) : Request :=
  {| authorization := Some key; amountIn := Some amount;
     tokenIn := Some tin; tokenOut := Some tout |}.

Definition quote_request (amount tin tout : string) : Request :=
  {| authorization := None; amountIn := Some amount;
     tokenIn := Some tin; tokenOut := Some tout |}.

Definition swap (quotes : Z -> result Ethers.BigNumber)
    (balance allowance : Ethers.BigNumber) (req : Request) :=
  swap (rpc quotes balance allowance) Date_now Wallet req start.

Definition quote (quotes : Z -> result Ethers.BigNumber) (req : Request) :=
  quote (rpc quotes 0 0) req start.

End Mock.

(** * Properties *)

Local Open Scope list_scope.

Example run_quote :
  fst (Mock.quote Mock.quotes_3000 (Mock.quote_request "10" "eth" "0xTOKEN"))
  = {| status := 200; json := JQuote 3000 "50.0" "5000000000" |}.
Proof. vm_compute. reflexivity. Qed.

Example run_swap :
  fst (Mock.swap Mock.quotes_3000 (10 ^ 20) 0 (Mock.request Mock.KEY "10" "eth" "0xTOKEN"))
  = {| status := 200; json := JSwap "0xb2" |}.
Proof. vm_compute. reflexivity. Qed.

Example run_swap_trace :
  List.map kind (trace (snd (Mock.swap Mock.quotes_3000 (10 ^ 20) 0
                          (Mock.request Mock.KEY "10" "eth" "0xTOKEN"))))
  = [KBalanceOf; KAllowance; KApprove; KWait; KQuote; KQuote; KSwap; KWait].
Proof. vm_compute. reflexivity. Qed.

Example run_swap_short :
  fst (Mock.swap Mock.quotes_3000 5 0 (Mock.request Mock.KEY "10" "eth" "0xTOKEN"))
  = {| status := 400; json := JError "Insufficient token balance." |}.
Proof. vm_compute. reflexivity. Qed.

Example run_swap_malformed_amount :
  fst (Mock.swap Mock.quotes_3000 (10 ^ 20) 0
         (Mock.request Mock.KEY "ten" "eth" "0xTOKEN"))
  = {| status := 500; json := JError "invalid decimal value" |}.
Proof. vm_compute. reflexivity. Qed.

Example run_swap_malformed_key :
  fst (Mock.swap Mock.quotes_3000 (10 ^ 20) 0
         (Mock.request "secret" "10" "eth" "0xTOKEN"))
  = {| status := 500; json := JError "invalid private key" |}.
Proof. vm_compute. reflexivity. Qed.

Example run_swap_usdt :
  fst (Mock.swap Mock.quotes_3000 (10 ^ 20) 0 (Mock.request Mock.KEY "10" "eth" "usdt"))
  = {| status := 500; json := JError "underflow" |}.
Proof. vm_compute. reflexivity. Qed.

(** ** Case-insensitive comparison *)

Lemma eq_nocase_lower (s t : string) :
  eq_nocase s t = String.eqb (JS.toLowerCase s) (JS.toLowerCase t).
Proof.
  revert t. induction s as [|a s IH]; intros [|b t]; simpl; try reflexivity.
  now rewrite IH.
Qed.

Lemma eq_nocase_alias (s : string) :
  eq_nocase s NATIVE_ALIAS = String.eqb (JS.toLowerCase s) "eth".
Proof. apply eq_nocase_lower. Qed.

Lemma eq_nocase_stable (s : string) :
  eq_nocase s STABLE_ASSET = String.eqb (JS.toLowerCase s) "usdt".
Proof. apply eq_nocase_lower. Qed.

Lemma eq_nocase_nonempty (s t : string) :
  eq_nocase s t = true -> t <> "" -> String.eqb s "" = false.
Proof.
  destruct s, t; simpl; intros H Ht; try reflexivity; try discriminate.
  now elim Ht.
Qed.

Lemma eq_nocase_trans (s t u : string) :
  eq_nocase s t = true -> eq_nocase t u = true -> eq_nocase s u = true.
Proof.
  rewrite !eq_nocase_lower, !String.eqb_eq. congruence.
Qed.

(** ** Token resolution *)

(** C6.  A string equal to the native alias up to case resolves to the
    wrapped-native address; any other non-empty string resolves to itself;
    the empty string and a missing value are rejected. *)
Theorem toAddress_resolves :
  (forall s, eq_nocase s NATIVE_ALIAS = true ->
             toAddress (Some s) = ok WETH_ADDRESS) /\
  (forall s, s <> "" -> eq_nocase s NATIVE_ALIAS = false ->
             toAddress (Some s) = ok s) /\
  toAddress (Some "") = throw (Error "Invalid token string") /\
  toAddress None = throw (Error "Invalid token string").
Proof.
  repeat split.
  - intros s H. unfold toAddress. simpl JS.falsy.
    rewrite (eq_nocase_nonempty s NATIVE_ALIAS H) by discriminate.
    rewrite eq_nocase_alias in H. simpl JS.str. now rewrite H.
  - intros s Hs H. unfold toAddress. simpl JS.falsy.
    apply String.eqb_neq in Hs. rewrite Hs.
    rewrite eq_nocase_alias in H. simpl JS.str. now rewrite H.
Qed.

Lemma toAddress_resolves_witness :
  toAddress (Some "EtH") = ok WETH_ADDRESS /\
  toAddress (Some "0xTOKEN") = ok "0xTOKEN".
Proof.
  destruct toAddress_resolves as (Halias & Hother & _).
  split.
  - apply Halias. reflexivity.
  - apply Hother; [discriminate | reflexivity].
Defined.

(** ** Slippage policy *)

Lemma one_percent :
  JS.Math_min (BASE_SLIPPAGE * 2)%float MAX_SLIPPAGE = 0.01%float.
Proof. reflexivity. Qed.

Lemma one_percent_below_ceiling : 0.01%float <> MAX_SLIPPAGE.
Proof.
  intro H.
  assert (E : (0.01 <? 0.02)%float = (MAX_SLIPPAGE <? 0.02)%float)
    by (rewrite H; reflexivity).
  vm_compute in E. discriminate.
Qed.

Lemma one_percent_above_base : 0.01%float <> BASE_SLIPPAGE.
Proof.
  intro H.
  assert (E : (0.01 <? 0.007)%float = (BASE_SLIPPAGE <? 0.007)%float)
    by (rewrite H; reflexivity).
  vm_compute in E. discriminate.
Qed.

Lemma ceiling_above_base : MAX_SLIPPAGE <> BASE_SLIPPAGE.
Proof.
  intro H.
  assert (E : (MAX_SLIPPAGE <? 0.007)%float = (BASE_SLIPPAGE <? 0.007)%float)
    by (rewrite H; reflexivity).
  vm_compute in E. discriminate.
Qed.

(** [calculateSlippage] in terms of the three comparisons it makes. *)
Lemma calculateSlippage_cases (tokenIn tokenOut : string) :
  calculateSlippage tokenIn tokenOut =
  if eq_nocase tokenIn WETH_ADDRESS && eq_nocase tokenOut STABLE_ASSET
  then BASE_SLIPPAGE
  else if eq_nocase tokenIn WETH_ADDRESS || eq_nocase tokenOut WETH_ADDRESS
       then 0.01%float else MAX_SLIPPAGE.
Proof.
  unfold calculateSlippage.
  rewrite !eq_nocase_lower. change (JS.toLowerCase STABLE_ASSET) with "usdt".
  rewrite one_percent. reflexivity.
Qed.

(** C3.  The bound is 0.5% for a wrapped-native input and the stable asset
    as output, 1.0% when exactly one of the two tokens is wrapped-native and
    that first case does not apply, and 3.0% when neither is; every
    comparison ignores case. *)
Theorem calculateSlippage_table (tokenIn tokenOut : string) :
  (eq_nocase tokenIn WETH_ADDRESS = true ->
   eq_nocase tokenOut STABLE_ASSET = true ->
   calculateSlippage tokenIn tokenOut = 0.005%float) /\
  (xorb (eq_nocase tokenIn WETH_ADDRESS) (eq_nocase tokenOut WETH_ADDRESS) = true ->
   eq_nocase tokenIn WETH_ADDRESS && eq_nocase tokenOut STABLE_ASSET = false ->
   calculateSlippage tokenIn tokenOut = 0.01%float) /\
  (eq_nocase tokenIn WETH_ADDRESS = false ->
   eq_nocase tokenOut WETH_ADDRESS = false ->
   calculateSlippage tokenIn tokenOut = 0.03%float) /\
  JS.Math_min 0.01%float 0.03%float = 0.01%float.
Proof.
  rewrite calculateSlippage_cases.
  repeat split.
  - intros -> ->. reflexivity.
  - intros Hx ->.
    destruct (eq_nocase tokenIn WETH_ADDRESS), (eq_nocase tokenOut WETH_ADDRESS);
      simpl in *; try discriminate; reflexivity.
  - intros -> ->. reflexivity.
Qed.

Lemma calculateSlippage_table_witness :
  calculateSlippage WETH_ADDRESS "USDT" = 0.005%float /\
  calculateSlippage "0xTOKEN" WETH_ADDRESS = 0.01%float /\
  calculateSlippage "0xTOKEN" Mock.TOKEN6 = 0.03%float.
Proof.
  split; [| split].
  - apply (calculateSlippage_table WETH_ADDRESS "USDT"); reflexivity.
  - apply (calculateSlippage_table "0xTOKEN" WETH_ADDRESS); reflexivity.
  - apply (calculateSlippage_table "0xTOKEN" Mock.TOKEN6); reflexivity.
Defined.

(** C10.  When both tokens are the wrapped-native token the bound is the
    1.0% of the middle branch, not the 3.0% ceiling. *)
Theorem calculateSlippage_both_native (tokenIn tokenOut : string) :
  eq_nocase tokenIn WETH_ADDRESS = true ->
  eq_nocase tokenOut WETH_ADDRESS = true ->
  calculateSlippage tokenIn tokenOut = 0.01%float /\
  calculateSlippage tokenIn tokenOut <> MAX_SLIPPAGE.
Proof.
  intros Hin Hout.
  assert (Hstable : eq_nocase tokenOut STABLE_ASSET = false).
  { destruct (eq_nocase tokenOut STABLE_ASSET) eqn:E; [| reflexivity].
    rewrite eq_nocase_lower in Hout, E. apply String.eqb_eq in Hout, E.
    rewrite Hout in E. discriminate E. }
  rewrite calculateSlippage_cases, Hin, Hout, Hstable. simpl.
  split; [reflexivity | apply one_percent_below_ceiling].
Qed.

Lemma calculateSlippage_both_native_witness :
  calculateSlippage WETH_ADDRESS WETH_ADDRESS = 0.01%float /\
  calculateSlippage WETH_ADDRESS WETH_ADDRESS <> MAX_SLIPPAGE.
Proof.
  apply (calculateSlippage_both_native WETH_ADDRESS WETH_ADDRESS); reflexivity.
Defined.

Lemma address_form_not_stable (s : string) :
  address_form s = true -> eq_nocase s STABLE_ASSET = false.
Proof.
  unfold address_form. destruct s as [|c [|d s]]; try discriminate.
  intros H. apply andb_true_iff in H as [H _].
  apply Ascii.eqb_eq in H. subst c. reflexivity.
Qed.

Lemma alias_not_stable (s : string) :
  eq_nocase s NATIVE_ALIAS = true -> eq_nocase s STABLE_ASSET = false.
Proof.
  rewrite eq_nocase_alias, eq_nocase_stable. intros H.
  apply String.eqb_eq in H. now rewrite H.
Qed.

(** What [toAddress] returns for a value it accepts. *)
Lemma toAddress_ok (token : JS.value) (a : string) :
  toAddress token = ok a ->
  JS.falsy token = false /\
  a = if eq_nocase (JS.str token) NATIVE_ALIAS then WETH_ADDRESS
      else JS.str token.
Proof.
  unfold toAddress. rewrite eq_nocase_alias.
  destruct (JS.falsy token); [discriminate |].
  unfold ok. intros H. injection H as <-. split; reflexivity.
Qed.

(** C9.  On the swap path the classifier receives resolved addresses, and
    its first branch compares the output against the stable asset's
    identifier: the 0.5% bound is returned exactly when the input resolves to
    the wrapped-native token and the output the user supplied is that
    identifier up to case, which resolution leaves unchanged; it is not
    returned for an output in address form or given as the native alias. *)
Theorem stable_branch_on_swap_path (tokenIn tokenOut : JS.value)
    (tokenInAddress tokenOutAddress : string) :
  toAddress tokenIn = ok tokenInAddress ->
  toAddress tokenOut = ok tokenOutAddress ->
  (calculateSlippage tokenInAddress tokenOutAddress = BASE_SLIPPAGE <->
   eq_nocase tokenInAddress WETH_ADDRESS = true /\
   eq_nocase (JS.str tokenOut) STABLE_ASSET = true) /\
  (eq_nocase (JS.str tokenOut) STABLE_ASSET = true ->
   tokenOutAddress = JS.str tokenOut) /\
  (address_form (JS.str tokenOut) = true \/
   eq_nocase (JS.str tokenOut) NATIVE_ALIAS = true ->
   calculateSlippage tokenInAddress tokenOutAddress <> BASE_SLIPPAGE).
Proof.
  intros _ Hout. apply toAddress_ok in Hout as [_ Hout].
  assert (Hsame : eq_nocase tokenOutAddress STABLE_ASSET
                  = eq_nocase (JS.str tokenOut) STABLE_ASSET).
  { subst tokenOutAddress.
    destruct (eq_nocase (JS.str tokenOut) NATIVE_ALIAS) eqn:E; [| reflexivity].
    now rewrite (alias_not_stable _ E). }
  assert (Hiff : calculateSlippage tokenInAddress tokenOutAddress = BASE_SLIPPAGE <->
                 eq_nocase tokenInAddress WETH_ADDRESS = true /\
                 eq_nocase (JS.str tokenOut) STABLE_ASSET = true).
  { rewrite calculateSlippage_cases, Hsame.
    destruct (eq_nocase tokenInAddress WETH_ADDRESS),
             (eq_nocase (JS.str tokenOut) STABLE_ASSET),
             (eq_nocase tokenOutAddress WETH_ADDRESS); simpl;
      split; intros H; try (split; reflexivity); try reflexivity;
      try (destruct H; discriminate);
      try (now elim one_percent_above_base);
      try (now elim ceiling_above_base). }
  split; [exact Hiff | split].
  - intros Hst. subst tokenOutAddress.
    destruct (eq_nocase (JS.str tokenOut) NATIVE_ALIAS) eqn:E; [| reflexivity].
    rewrite (alias_not_stable _ E) in Hst. discriminate.
  - intros Hform Hbase. apply Hiff in Hbase as [_ Hst].
    destruct Hform as [Hform | Hform].
    + rewrite (address_form_not_stable _ Hform) in Hst. discriminate.
    + rewrite (alias_not_stable _ Hform) in Hst. discriminate.
Qed.

Lemma stable_branch_on_swap_path_witness :
  (calculateSlippage WETH_ADDRESS "usdt" = BASE_SLIPPAGE <->
   eq_nocase WETH_ADDRESS WETH_ADDRESS = true /\
   eq_nocase "usdt" STABLE_ASSET = true) /\
  (eq_nocase "usdt" STABLE_ASSET = true -> "usdt" = "usdt") /\
  (address_form "usdt" = true \/ eq_nocase "usdt" NATIVE_ALIAS = true ->
   calculateSlippage WETH_ADDRESS "usdt" <> BASE_SLIPPAGE).
Proof.
  apply (stable_branch_on_swap_path (Some "eth") (Some "usdt")); reflexivity.
Defined.

(** ** Minimum output *)

Lemma amountOutMinimum_one_percent (amountOut : Ethers.BigNumber) :
  amountOutMinimum amountOut 0.01%float = ok (Z.quot (amountOut * 99) 100).
Proof.
  unfold amountOutMinimum, Ethers.mul, Ethers.div.
  change (Ethers.from_number (100 - 0.01 * 100)%float) with (@ok Z 99).
  change (Ethers.from_number 100%float) with (@ok Z 100).
  reflexivity.
Qed.

Lemma amountOutMinimum_ceiling (amountOut : Ethers.BigNumber) :
  amountOutMinimum amountOut MAX_SLIPPAGE = ok (Z.quot (amountOut * 97) 100).
Proof.
  unfold amountOutMinimum, Ethers.mul, Ethers.div.
  change (Ethers.from_number (100 - MAX_SLIPPAGE * 100)%float) with (@ok Z 97).
  change (Ethers.from_number 100%float) with (@ok Z 100).
  reflexivity.
Qed.

(** C1.  With the 0.5% bound the factor [100 - 0.005 * 100] is 99.5, which
    [BigNumber] multiplication refuses: no minimum output is computed, for
    any quoted amount, and in particular not 995000 for 1000000. *)
Theorem amountOutMinimum_base_underflow (amountOut : Ethers.BigNumber) :
  (100 - BASE_SLIPPAGE * 100)%float = 99.5%float /\
  amountOutMinimum amountOut BASE_SLIPPAGE
  = throw (LoggerError Ethers.NUMERIC_FAULT "underflow") /\
  amountOutMinimum 1000000 BASE_SLIPPAGE <> ok 995000.
Proof.
  assert (H : forall a, amountOutMinimum a BASE_SLIPPAGE
                        = throw (LoggerError Ethers.NUMERIC_FAULT "underflow")).
  { intros a. unfold amountOutMinimum, Ethers.mul.
    change (Ethers.from_number (100 - BASE_SLIPPAGE * 100)%float)
      with (@throw Z (LoggerError Ethers.NUMERIC_FAULT "underflow")).
    reflexivity. }
  split; [reflexivity | split; [apply H | rewrite H; discriminate]].
Qed.

(** ** Fee-tier discovery *)

Section Quote_engine.

Context {Chain : Type}.
Variable rpc : forall T : Type, Call T -> Chain -> result T * Chain.

Variables tokenIn tokenOut : string.
Variable amountIn : Ethers.BigNumber.

(** The probes of a run of the loop are the tiers in order, up to the
    first that answers; the run returns that tier and its answer, and
    throws when the tiers are exhausted. *)
Lemma tryTiers_attempts (tiers : list Z) (w : World Chain) :
  exists attempts rest,
    trace (snd (tryTiers rpc tiers tokenIn tokenOut amountIn w))
    = trace w ++ map (probe tokenIn tokenOut amountIn) attempts /\
    tiers = map fst attempts ++ rest /\
    match fst (tryTiers rpc tiers tokenIn tokenOut amountIn w) with
    | inr (fee, amountOut) =>
        exists before, attempts = before ++ [(fee, ok amountOut)] /\
                       Forall attempt_failed before
    | inl e =>
        e = Error "No valid liquidity pool found." /\ rest = [] /\
        Forall attempt_failed attempts
    end.
Proof.
  revert w. induction tiers as [|fee tiers IH]; intros w.
  - exists [], []. simpl. rewrite app_nil_r. auto.
  - simpl. unfold await.
    destruct (rpc _ (QuoteExactInputSingle QUOTER_ADDRESS tokenIn tokenOut fee
                       amountIn 0) (chain w)) as [[e | amountOut] ch] eqn:E.
    + unfold bind, console_log. simpl.
      match goal with
      | |- context [tryTiers rpc tiers tokenIn tokenOut amountIn ?w1] =>
          destruct (IH w1) as (attempts & rest & Htrace & Htiers & Hres)
      end.
      exists ((fee, inl e) :: attempts), rest.
      simpl in Htrace. rewrite Htrace, <- app_assoc. simpl.
      split; [reflexivity | split; [now rewrite Htiers |]].
      destruct (fst (tryTiers rpc tiers tokenIn tokenOut amountIn _))
        as [e' | [fee' amountOut']].
      * destruct Hres as (-> & -> & Hall). repeat split.
        constructor; [now exists e | exact Hall].
      * destruct Hres as (before & -> & Hall).
        exists ((fee, inl e) :: before). split; [reflexivity |].
        constructor; [now exists e | exact Hall].
    + exists [(fee, ok amountOut)], tiers.
      unfold bind, console_log, ret. simpl.
      split; [reflexivity | split; [reflexivity |]].
      exists []. split; [reflexivity | constructor].
Qed.

(** C2.  [getBestQuote] probes the tiers 500, 3000, 10000 in that order
    and stops at the first probe that is answered, returning that tier with
    its output; no later tier is probed.  It throws, with the no-liquidity
    error, exactly when every tier was probed and every probe failed. *)
Theorem getBestQuote_first_success (w : World Chain) :
  let run := getBestQuote rpc tokenIn tokenOut amountIn w in
  exists attempts rest,
    trace (snd run) = trace w ++ map (probe tokenIn tokenOut amountIn) attempts /\
    [500; 3000; 10000] = map fst attempts ++ rest /\
    (forall fee amountOut,
       fst run = ok (fee, amountOut) ->
       exists before, attempts = before ++ [(fee, ok amountOut)] /\
                      Forall attempt_failed before) /\
    (forall e, fst run = throw e -> e = Error "No valid liquidity pool found.") /\
    ((exists e, fst run = throw e) <->
     map fst attempts = [500; 3000; 10000] /\ Forall attempt_failed attempts).
Proof.
  unfold getBestQuote.
  destruct (tryTiers_attempts feeTiers w) as (attempts & rest & Htrace & Htiers & Hres).
  exists attempts, rest. split; [exact Htrace | split; [exact Htiers |]].
  destruct (fst (tryTiers rpc feeTiers tokenIn tokenOut amountIn w))
    as [e | [fee amountOut]].
  - destruct Hres as (-> & -> & Hall). rewrite app_nil_r in Htiers.
    repeat split.
    + intros fee amountOut H. discriminate H.
    + intros e H. now injection H as <-.
    + now rewrite <- Htiers.
    + exact Hall.
    + intros _. eexists. reflexivity.
  - destruct Hres as (before & -> & Hall).
    repeat split.
    + intros fee' amountOut' H. injection H as <- <-. now exists before.
    + intros e H. discriminate H.
    + destruct H as [e H]. discriminate H.
    + destruct H as [e H]. discriminate H.
    + intros [_ Hfail]. apply Forall_app in Hfail as [_ Hlast].
      inversion Hlast as [|? ? [e He] _]. discriminate He.
Qed.

End Quote_engine.

Example getBestQuote_third_tier :
  fst (getBestQuote (Mock.rpc Mock.quotes_10000 0 0) WETH_ADDRESS "0xTOKEN"
         (10 ^ 18) Mock.start) = ok (10000, 1000000) /\
  map kind (trace (snd (getBestQuote (Mock.rpc Mock.quotes_10000 0 0)
                          WETH_ADDRESS "0xTOKEN" (10 ^ 18) Mock.start)))
  = [KQuote; KQuote; KQuote].
Proof. split; reflexivity. Qed.

Example getBestQuote_second_tier :
  trace (snd (getBestQuote (Mock.rpc Mock.quotes_3000 0 0)
                WETH_ADDRESS "0xTOKEN" 7 Mock.start))
  = map (probe WETH_ADDRESS "0xTOKEN" 7)
      [(500, Mock.reverted); (3000, ok 5000000000)].
Proof. reflexivity. Qed.

Example getBestQuote_no_pool :
  fst (getBestQuote (Mock.rpc Mock.no_quotes 0 0) WETH_ADDRESS "0xTOKEN"
         (10 ^ 18) Mock.start) = throw (Error "No valid liquidity pool found.").
Proof. reflexivity. Qed.

(** ** Decimal strings *)

Module Digits.

Import Ethers.

Lemma digit_chars (c : ascii) :
  is_digit c = true ->
  Ascii.eqb c "-" = false /\ is_dot c = false /\ 0 <= digit_value c <= 9.
Proof.
  destruct c as [[] [] [] [] [] [] [] []]; vm_compute;
    intros H; try discriminate H; repeat split; congruence.
Qed.

Lemma digits_cons (c : ascii) (s : string) :
  decimal_digits (String c s) <-> is_digit c = true /\ decimal_digits s.
Proof. unfold decimal_digits. simpl. apply andb_true_iff. Qed.

Lemma length_app (s t : string) :
  String.length (s ++ t)%string = (String.length s + String.length t)%nat.
Proof. induction s as [|c s IH]; simpl; [reflexivity | now rewrite IH]. Qed.

Lemma len_app (s t : string) : len (s ++ t)%string = len s + len t.
Proof. unfold len. rewrite length_app. lia. Qed.

Lemma len_zeros (n : nat) : len (zeros n) = Z.of_nat n.
Proof.
  unfold len. f_equal. induction n as [|n IH]; simpl; [reflexivity | now rewrite IH].
Qed.

Lemma len_nonneg (s : string) : 0 <= len s.
Proof. unfold len. lia. Qed.

Lemma all_chars_app (p : ascii -> bool) (s t : string) :
  all_chars p (s ++ t)%string = all_chars p s && all_chars p t.
Proof.
  induction s as [|c s IH]; simpl; [reflexivity |].
  now rewrite IH, andb_assoc.
Qed.

Lemma digits_zeros (n : nat) : decimal_digits (zeros n).
Proof. unfold decimal_digits. induction n as [|n IH]; simpl; [reflexivity | exact IH]. Qed.

Lemma digits_from_app (acc : Z) (s t : string) :
  digits_from acc (s ++ t)%string = digits_from (digits_from acc s) t.
Proof. revert acc. induction s as [|c s IH]; intros acc; simpl; [reflexivity | apply IH]. Qed.

Lemma digits_from_zeros (acc : Z) (n : nat) :
  digits_from acc (zeros n) = acc * 10 ^ Z.of_nat n.
Proof.
  revert acc. induction n as [|n IH]; intros acc.
  - simpl. lia.
  - cbn [zeros digits_from]. rewrite IH.
    change (digit_value "0") with 0.
    rewrite Nat2Z.inj_succ, Z.pow_succ_r by lia. ring.
Qed.

Lemma value_app_zeros (s : string) (n : nat) :
  decimal_value (s ++ zeros n)%string = decimal_value s * 10 ^ Z.of_nat n.
Proof. unfold decimal_value. now rewrite digits_from_app, digits_from_zeros. Qed.

Lemma value_multiplier (n : nat) :
  decimal_value (String "1" (zeros n)) = 10 ^ Z.of_nat n.
Proof.
  unfold decimal_value. cbn [digits_from]. rewrite digits_from_zeros.
  change (digit_value "1") with 1. lia.
Qed.

(** A string is what trimming leaves of it, followed by zeros. *)
Lemma trim_zeros_split (s : string) :
  exists n, s = (trim_zeros s ++ zeros n)%string.
Proof.
  induction s as [|c s [n IH]].
  - exists O. reflexivity.
  - cbn [trim_zeros]. destruct (trim_zeros s) as [|d t] eqn:E.
    + destruct (Ascii.eqb_spec c "0") as [-> | _].
      * exists (S n). simpl in *. now rewrite <- IH.
      * exists n. simpl in *. now rewrite <- IH.
    + exists n. simpl in *. now rewrite <- IH.
Qed.

Lemma trim_zeros_or_zero (s : string) :
  trim_zeros (or_zero s) = trim_zeros s.
Proof. destruct s; reflexivity. Qed.

Lemma from_string_digits (s : string) :
  decimal_digits s -> s <> "" -> from_string s = ok (decimal_value s).
Proof.
  intros Hd Hs. unfold from_string.
  destruct s as [|c s]; [now elim Hs |].
  pose proof Hd as Hc. apply digits_cons in Hc as [Hc _].
  apply digit_chars in Hc as (Hm & _ & _).
  cbn [starts_with_minus]. rewrite Hm.
  unfold decimal_digits in Hd. rewrite Hd. reflexivity.
Qed.

Lemma digits_app (s t : string) :
  decimal_digits (s ++ t)%string <-> decimal_digits s /\ decimal_digits t.
Proof. unfold decimal_digits. rewrite all_chars_app. apply andb_true_iff. Qed.

Lemma digits_decimal (s : string) :
  decimal_digits s -> all_chars (fun c => is_digit c || is_dot c) s = true.
Proof.
  induction s as [|c s IH]; [reflexivity |].
  intros H. apply digits_cons in H as [Hc Hs]. simpl. now rewrite Hc, IH.
Qed.

Lemma split_dot_digits (s : string) : decimal_digits s -> split_dot s = [s].
Proof.
  induction s as [|c s IH]; [reflexivity |].
  intros H. apply digits_cons in H as [Hc Hs].
  apply digit_chars in Hc as (_ & Hdot & _).
  simpl. now rewrite Hdot, IH.
Qed.

Lemma split_dot_point (w f : string) :
  decimal_digits w -> split_dot (w ++ String "." f)%string = w :: split_dot f.
Proof.
  induction w as [|c w IH]; [reflexivity |].
  intros H. apply digits_cons in H as [Hc Hw].
  apply digit_chars in Hc as (_ & Hdot & _).
  simpl. now rewrite Hdot, IH.
Qed.

Lemma getMultiplier_ok (decimals : Z) :
  0 <= decimals <= 256 ->
  getMultiplier decimals = ok (String "1" (zeros (Z.to_nat decimals))).
Proof.
  intros H. unfold getMultiplier.
  replace ((0 <=? decimals) && (decimals <=? 256)) with true; [reflexivity |].
  symmetry. apply andb_true_iff. split; apply Z.leb_le; lia.
Qed.

Lemma len_multiplier (decimals : Z) :
  0 <= decimals -> len (String "1" (zeros (Z.to_nat decimals))) - 1 = decimals.
Proof.
  intros H. change (String "1" ?s) with ("1" ++ s)%string.
  rewrite len_app, len_zeros. change (len "1") with 1. lia.
Qed.

Lemma from_string_or_zero (s : string) :
  decimal_digits s -> from_string (or_zero s) = ok (decimal_value s).
Proof.
  intros H. destruct s as [|c s]; [reflexivity |].
  change (or_zero (String c s)) with (String c s).
  apply from_string_digits; [exact H | discriminate].
Qed.

(** The fraction, trimmed and padded again to the precision. *)
Lemma from_string_fraction (fraction : string) (decimals : Z) :
  decimal_digits fraction -> len fraction <= decimals ->
  len (trim_zeros fraction) <= decimals /\
  from_string (pad_right (or_zero (trim_zeros fraction)) decimals)
  = ok (decimal_value fraction * 10 ^ (decimals - len fraction)).
Proof.
  intros Hd Hlen. destruct (trim_zeros_split fraction) as [n Hsplit].
  pose proof (len_nonneg (trim_zeros fraction)) as Hnn.
  assert (Hl : len fraction = len (trim_zeros fraction) + Z.of_nat n).
  { rewrite Hsplit at 1. now rewrite len_app, len_zeros. }
  assert (Hv : decimal_value fraction = decimal_value (trim_zeros fraction) * 10 ^ Z.of_nat n).
  { rewrite Hsplit at 1. apply value_app_zeros. }
  assert (Ht : decimal_digits (trim_zeros fraction)).
  { rewrite Hsplit in Hd. now apply digits_app in Hd. }
  split; [lia |].
  unfold pad_right.
  destruct (trim_zeros fraction) as [|c t] eqn:E.
  - change (or_zero "") with "0". rewrite from_string_digits.
    + rewrite value_app_zeros, Hv. reflexivity.
    + apply digits_app. split; [reflexivity | apply digits_zeros].
    + discriminate.
  - change (or_zero (String c t)) with (String c t).
    rewrite from_string_digits.
    + rewrite value_app_zeros, Hv, Z2Nat.id by lia.
      rewrite <- Z.mul_assoc, <- Z.pow_add_r by lia.
      do 3 f_equal. lia.
    + apply digits_app. split; [exact Ht | apply digits_zeros].
    + discriminate.
Qed.

Lemma parseUnits_point (whole fraction : string) (decimals : Z) :
  decimal_digits whole -> decimal_digits fraction ->
  whole <> "" \/ fraction <> "" ->
  len fraction <= decimals <= 256 ->
  parseUnits (whole ++ "." ++ fraction)%string decimals
  = ok (decimal_value whole * 10 ^ decimals
        + decimal_value fraction * 10 ^ (decimals - len fraction)).
Proof.
  intros Hw Hf Hne Hlen.
  pose proof (len_nonneg fraction) as Hnn.
  set (v := (whole ++ "." ++ fraction)%string).
  assert (Hminus : starts_with_minus v = false).
  { subst v. destruct whole as [|c w]; [reflexivity |].
    apply digits_cons in Hw as [Hc _]. now apply digit_chars in Hc. }
  assert (Hempty : String.eqb v "" = false).
  { subst v. destruct whole; reflexivity. }
  assert (Hpoint : String.eqb v "." = false).
  { subst v. destruct whole as [|c w].
    - destruct fraction; [destruct Hne as [H | H]; now elim H | reflexivity].
    - apply digits_cons in Hw as [Hc _]. apply digit_chars in Hc as (_ & Hdot & _).
      simpl. unfold is_dot in Hdot. now rewrite Hdot. }
  assert (Hall : all_chars (fun c => is_digit c || is_dot c) v = true).
  { subst v. rewrite !all_chars_app.
    rewrite (digits_decimal whole Hw), (digits_decimal fraction Hf). reflexivity. }
  assert (Hsplit : split_dot v = [whole; fraction]).
  { subst v. change ("." ++ fraction)%string with (String "." fraction).
    now rewrite split_dot_point, split_dot_digits. }
  destruct (from_string_fraction fraction decimals Hf (proj1 Hlen)) as [Htrim Hfrac].
  unfold parseUnits, parseFixed.
  rewrite getMultiplier_ok by lia. cbn [rbind ok].
  unfold matches_decimal. rewrite Hminus, Hempty, Hall. cbn [negb andb].
  rewrite Hpoint, Hsplit. cbn [List.length Nat.ltb Nat.leb nth].
  rewrite trim_zeros_or_zero, len_multiplier by lia.
  replace (decimals <? len (trim_zeros fraction)) with false
    by (symmetry; apply Z.ltb_ge; lia).
  rewrite from_string_or_zero, Hfrac by assumption.
  rewrite from_string_digits, value_multiplier, Z2Nat.id; try lia; try discriminate.
  - reflexivity.
  - apply digits_cons. split; [reflexivity | apply digits_zeros].
Qed.

Lemma parseUnits_integer (whole : string) (decimals : Z) :
  decimal_digits whole -> whole <> "" -> 0 <= decimals <= 256 ->
  parseUnits whole decimals = ok (decimal_value whole * 10 ^ decimals).
Proof.
  intros Hw Hne Hlen.
  assert (Hminus : starts_with_minus whole = false).
  { destruct whole as [|c w]; [reflexivity |].
    apply digits_cons in Hw as [Hc _]. now apply digit_chars in Hc. }
  assert (Hempty : String.eqb whole "" = false) by now apply String.eqb_neq.
  assert (Hpoint : String.eqb whole "." = false).
  { destruct whole as [|c w]; [reflexivity |].
    apply digits_cons in Hw as [Hc _]. apply digit_chars in Hc as (_ & Hdot & _).
    simpl. unfold is_dot in Hdot. now rewrite Hdot. }
  assert (Hzero : decimal_digits "") by reflexivity.
  destruct (from_string_fraction "" decimals Hzero (proj1 Hlen)) as [_ Hfrac].
  unfold parseUnits, parseFixed.
  rewrite getMultiplier_ok by lia. cbn [rbind ok].
  unfold matches_decimal. rewrite Hminus, Hempty, (digits_decimal whole Hw).
  cbn [negb andb].
  rewrite Hpoint, split_dot_digits by assumption.
  cbn [List.length Nat.ltb Nat.leb nth].
  rewrite trim_zeros_or_zero, len_multiplier by lia.
  replace (decimals <? len (trim_zeros "")) with false
    by (symmetry; apply Z.ltb_ge; apply Hlen).
  rewrite from_string_or_zero, Hfrac by assumption.
  rewrite from_string_digits, value_multiplier, Z2Nat.id; try lia; try discriminate.
  - cbn [rbind ok]. f_equal. change (decimal_value "") with 0. lia.
  - apply digits_cons. split; [reflexivity | apply digits_zeros].
Qed.

End Digits.

(** ** Formatting *)

Module Format.

Import Ethers Digits.

Lemma string_of_uint_value (d : Decimal.uint) (acc : Z) :
  digits_from acc (NilEmpty.string_of_uint d) = uint_value acc d.
Proof.
  revert acc. induction d; intros acc; cbn [NilEmpty.string_of_uint digits_from uint_value];
    rewrite ?IHd; reflexivity.
Qed.

Lemma string_of_uint_digits (d : Decimal.uint) :
  decimal_digits (NilEmpty.string_of_uint d).
Proof.
  induction d; try reflexivity; apply digits_cons; split;
    solve [reflexivity | assumption].
Qed.

Lemma string_of_uint_len (d : Decimal.uint) :
  len (NilEmpty.string_of_uint d) = Z.of_nat (Decimal.nb_digits d).
Proof.
  unfold len. f_equal. induction d; simpl; congruence.
Qed.

Lemma uint_value_acc (d : Decimal.uint) (acc : positive) :
  uint_value (Z.pos acc) d = Z.pos (Pos.of_uint_acc d acc).
Proof.
  revert acc. induction d; intros acc; cbn [uint_value Pos.of_uint_acc];
    try reflexivity; rewrite <- IHd; f_equal; lia.
Qed.

Lemma uint_value_of_uint (d : Decimal.uint) :
  uint_value 0 d = Z.of_N (Pos.of_uint d).
Proof.
  induction d; cbn [uint_value Pos.of_uint];
    [ reflexivity | exact IHd
    | exact (uint_value_acc d 1) | exact (uint_value_acc d 2)
    | exact (uint_value_acc d 3) | exact (uint_value_acc d 4)
    | exact (uint_value_acc d 5) | exact (uint_value_acc d 6)
    | exact (uint_value_acc d 7) | exact (uint_value_acc d 8)
    | exact (uint_value_acc d 9) ].
Qed.

Lemma uint_value_lower (d : Decimal.uint) (acc : Z) :
  0 <= acc -> acc * 10 ^ Z.of_nat (Decimal.nb_digits d) <= uint_value acc d.
Proof.
  revert acc. induction d; intros acc Hacc;
    cbn [uint_value Decimal.nb_digits];
    [ simpl; lia | .. ];
    rewrite Nat2Z.inj_succ, Z.pow_succ_r by lia;
    (etransitivity; [| apply IHd; lia]);
    assert (0 <= 10 ^ Z.of_nat (Decimal.nb_digits d)) by (apply Z.pow_nonneg; lia);
    nia.
Qed.

(** The digits of a positive number start with a digit that is not zero. *)
Lemma to_uint_head (p : positive) :
  Decimal.nzhead (Pos.to_uint p) = Pos.to_uint p.
Proof.
  pose proof (DecimalPos.Unsigned.to_of (Pos.to_uint p)) as H.
  rewrite DecimalPos.Unsigned.of_to in H. simpl in H.
  pose proof (DecimalPos.Unsigned.to_uint_nonzero p) as Hnz.
  unfold Decimal.unorm in H.
  destruct (Decimal.nzhead (Pos.to_uint p)) eqn:E; congruence.
Qed.

Lemma to_uint_lower (p : positive) :
  10 ^ (Z.of_nat (Decimal.nb_digits (Pos.to_uint p)) - 1) <= Z.pos p.
Proof.
  pose proof (to_uint_head p) as Hhead.
  pose proof (DecimalPos.Unsigned.to_uint_nonnil p) as Hnil.
  assert (Hval : uint_value 0 (Pos.to_uint p) = Z.pos p).
  { now rewrite uint_value_of_uint, DecimalPos.Unsigned.of_to. }
  rewrite <- Hval.
  destruct (Pos.to_uint p) as [| l | l | l | l | l | l | l | l | l | l];
    [ now elim Hnil
    | exfalso; pose proof (DecimalFacts.nb_digits_nzhead l) as Hle;
      cbn [Decimal.nzhead] in Hhead; rewrite Hhead in Hle; simpl in Hle; lia
    | .. ];
    cbn [uint_value Decimal.nb_digits]; rewrite Nat2Z.inj_succ;
    replace (Z.succ (Z.of_nat (Decimal.nb_digits l)) - 1)
      with (Z.of_nat (Decimal.nb_digits l)) by lia;
    (etransitivity; [| apply uint_value_lower; lia]);
    assert (0 <= 10 ^ Z.of_nat (Decimal.nb_digits l)) by (apply Z.pow_nonneg; lia);
    nia.
Qed.

(** [toString] of a number that is not negative: its digits, its value,
    and how many digits there are. *)
Lemma toString_spec (x : Z) :
  0 <= x ->
  decimal_digits (toString x) /\ toString x <> "" /\
  decimal_value (toString x) = x /\
  (forall d, 1 <= d -> x < 10 ^ d -> len (toString x) <= d).
Proof.
  intros Hx. unfold toString. destruct x as [| p | p]; [| | lia].
  - repeat split; try discriminate. intros d Hd _. change (len _) with 1. lia.
  - cbn [Z.to_int NilZero.string_of_int].
    assert (Hs : NilZero.string_of_uint (Pos.to_uint p)
                 = NilEmpty.string_of_uint (Pos.to_uint p)).
    { pose proof (DecimalPos.Unsigned.to_uint_nonnil p).
      destruct (Pos.to_uint p); [congruence | reflexivity ..]. }
    rewrite Hs. split; [apply string_of_uint_digits | split; [| split]].
    + pose proof (DecimalPos.Unsigned.to_uint_nonnil p).
      destruct (Pos.to_uint p); [congruence | discriminate ..].
    + unfold decimal_value.
      now rewrite string_of_uint_value, uint_value_of_uint, DecimalPos.Unsigned.of_to.
    + intros d Hd Hlt. rewrite string_of_uint_len.
      pose proof (to_uint_lower p) as Hlow.
      assert (Hpow : 10 ^ (Z.of_nat (Decimal.nb_digits (Pos.to_uint p)) - 1) < 10 ^ d) by lia.
      apply Z.pow_lt_mono_r_iff in Hpow; lia.
Qed.


Lemma value_zeros_app (n : nat) (s : string) :
  decimal_value (zeros n ++ s)%string = decimal_value s.
Proof.
  unfold decimal_value. rewrite digits_from_app, digits_from_zeros. reflexivity.
Qed.

(** The fraction as [formatFixed] writes it: the digits of [x] padded on
    the left to the precision, without the trailing zeros. *)
Lemma fraction_spec (x d : Z) :
  1 <= d -> 0 <= x < 10 ^ d ->
  let fraction := strip_fraction (pad_left (toString x) d) in
  decimal_digits fraction /\ len fraction <= d /\
  decimal_value fraction * 10 ^ (d - len fraction) = x.
Proof.
  intros Hd Hx.
  destruct (toString_spec x (proj1 Hx)) as (Hdig & _ & Hval & Hlen).
  specialize (Hlen d Hd (proj2 Hx)).
  pose proof (len_nonneg (toString x)) as Hnn.
  set (padded := pad_left (toString x) d).
  assert (Hpd : decimal_digits padded).
  { apply digits_app. split; [apply digits_zeros | exact Hdig]. }
  assert (Hpl : len padded = d).
  { unfold padded, pad_left. rewrite len_app, len_zeros. lia. }
  assert (Hpv : decimal_value padded = x).
  { unfold padded, pad_left. now rewrite value_zeros_app. }
  cbv zeta. unfold strip_fraction.
  destruct (trim_zeros_split padded) as [n Hsplit].
  assert (Ht : decimal_digits (trim_zeros padded)).
  { rewrite Hsplit in Hpd. now apply digits_app in Hpd. }
  assert (Hl : len padded = len (trim_zeros padded) + Z.of_nat n).
  { rewrite Hsplit at 1. now rewrite len_app, len_zeros. }
  assert (Hv : decimal_value padded
               = decimal_value (trim_zeros padded) * 10 ^ Z.of_nat n).
  { rewrite Hsplit at 1. apply value_app_zeros. }
  pose proof (len_nonneg (trim_zeros padded)) as Htn.
  destruct (trim_zeros padded) as [|c t] eqn:E.
  - change (or_zero "") with "0". change (len "0") with 1.
    change (decimal_value "0") with 0. change (decimal_value "") with 0 in Hv.
    repeat split; [lia | lia].
  - change (or_zero (String c t)) with (String c t).
    split; [exact Ht | split; [lia |]].
    replace (d - len (String c t)) with (Z.of_nat n) by lia. lia.
Qed.

(** What [formatUnits] writes for an amount that is not negative reads
    back, at the same precision, as that amount. *)
Lemma formatUnits_parseUnits (amount decimals : Z) :
  0 <= amount -> 1 <= decimals <= 256 ->
  exists text,
    formatUnits amount decimals = ok text /\
    parseUnits text decimals = ok amount.
Proof.
  intros Ha Hd.
  assert (Hpow : 0 < 10 ^ decimals) by (apply Z.pow_pos_nonneg; lia).
  pose proof (Z.mod_pos_bound amount (10 ^ decimals) Hpow) as Hmod.
  assert (Hquot : 0 <= amount / 10 ^ decimals) by (apply Z.div_pos; lia).
  destruct (toString_spec (amount / 10 ^ decimals) Hquot) as (Hwd & Hwn & Hwv & _).
  destruct (fraction_spec (amount mod 10 ^ decimals) decimals (proj1 Hd) Hmod)
    as (Hfd & Hfl & Hfv).
  unfold formatUnits, formatFixed.
  rewrite getMultiplier_ok by lia. cbn [rbind ok].
  replace (amount <? 0) with false by (symmetry; apply Z.ltb_ge; exact Ha).
  rewrite from_string_digits, value_multiplier, Z2Nat.id; try lia; try discriminate.
  2: { apply digits_cons. split; [reflexivity | apply digits_zeros]. }
  cbn [rbind ok].
  rewrite Z.quot_div_nonneg by lia.
  replace (len (String "1" (zeros (Z.to_nat decimals))) - 1) with decimals
    by (symmetry; apply len_multiplier; lia).
  replace (len (String "1" (zeros (Z.to_nat decimals))) =? 1) with false.
  2: { symmetry. apply Z.eqb_neq. pose proof (len_multiplier decimals). lia. }
  eexists. split; [reflexivity |].
  rewrite parseUnits_point; try assumption; [| now left | lia].
  rewrite Hwv, Hfv. f_equal.
  rewrite Z.mul_comm. symmetry. apply Z.div_mod. lia.
Qed.

End Format.

Example parseUnits_one_ether : Ethers.parseUnits "1" 18 = ok (10 ^ 18).
Proof. reflexivity. Qed.

Example parseUnits_half : Ethers.parseUnits "0.5" 6 = ok 500000.
Proof. reflexivity. Qed.

Example parseUnits_too_fine :
  Ethers.parseUnits "0.0000001" 6
  = throw (LoggerError Ethers.NUMERIC_FAULT "fractional component exceeds decimals").
Proof. reflexivity. Qed.

Example parseUnits_not_a_number :
  Ethers.parseUnits "abc" 6
  = throw (LoggerError Ethers.INVALID_ARGUMENT "invalid decimal value").
Proof. reflexivity. Qed.

Example formatUnits_whole : Ethers.formatUnits 5000000000 8 = ok "50.0"%string.
Proof. reflexivity. Qed.

Example formatUnits_fraction :
  Ethers.formatUnits 5000000001 8 = ok "50.00000001"%string.
Proof. reflexivity. Qed.

Example formatUnits_no_precision : Ethers.formatUnits 15 0 = ok "15"%string.
Proof. reflexivity. Qed.

(** ** The request pipeline *)

Section Pipeline.

Context {Chain : Type}.
Variable rpc : forall T : Type, Call T -> Chain -> result T * Chain.
Variable Date_now : Chain -> Z.
Variable Wallet : string -> result string.

Implicit Types w : World Chain.

(** *** Laws of the combinators *)

Lemma bind_ok {A B} (m : M Chain A) (k : A -> M Chain B) w a w' :
  m w = (ok a, w') -> bind m k w = k a w'.
Proof. unfold bind. now intros ->. Qed.

Lemma bind_throw {A B} (m : M Chain A) (k : A -> M Chain B) w e w' :
  m w = (throw e, w') -> bind m k w = (throw e, w').
Proof. unfold bind. now intros ->. Qed.

Lemma quiet_nil {A} (r : result A) : quiet r [].
Proof. intros ev []. Qed.

Lemma emits_silent {A} (m : M Chain A) (Q : result A -> list Event -> Prop) :
  (forall w, trace (snd (m w)) = trace w) -> (forall r, Q r []) -> emits m Q.
Proof.
  intros Hm HQ w. exists []. rewrite app_nil_r. split; [apply Hm | apply HQ].
Qed.

Lemma quiet_ret {A} (a : A) : emits (ret (Chain := Chain) a) quiet.
Proof. apply emits_silent; [reflexivity | apply quiet_nil]. Qed.

Lemma quiet_raise {A} (e : exn) : emits (raise (Chain := Chain) (A := A) e) quiet.
Proof. apply emits_silent; [reflexivity | apply quiet_nil]. Qed.

Lemma quiet_lift {A} (r : result A) : emits (lift (Chain := Chain) r) quiet.
Proof. apply emits_silent; [reflexivity | apply quiet_nil]. Qed.

Lemma quiet_console_log text err : emits (console_log (Chain := Chain) text err) quiet.
Proof. apply emits_silent; [reflexivity | apply quiet_nil]. Qed.

Lemma quiet_now : emits (now Date_now) quiet.
Proof. apply emits_silent; [reflexivity | apply quiet_nil]. Qed.

Lemma quiet_await {T} (c : Call T) :
  kind_of c <> KQuote -> emits (await rpc c) quiet.
Proof.
  intros Hc w. unfold await.
  destruct (rpc T c (chain w)) as [r ch]. exists [Ev c r]. simpl.
  split; [reflexivity |].
  intros ev [<- | []]. split; [exact Hc |].
  intros [e ->]. now exists e.
Qed.

Lemma quiet_bind {A B} (m : M Chain A) (k : A -> M Chain B) :
  emits m quiet -> (forall a, emits (k a) quiet) -> emits (bind m k) quiet.
Proof.
  intros Hm Hk w. destruct (Hm w) as (evs1 & Ht1 & Hq1). unfold bind.
  destruct (m w) as [[e | a] w1]; simpl in *.
  - exists evs1. split; [exact Ht1 |].
    intros ev Hin. destruct (Hq1 ev Hin) as [Hk1 _].
    split; [exact Hk1 | intros _; now exists e].
  - destruct (Hk a w1) as (evs2 & Ht2 & Hq2).
    exists (evs1 ++ evs2). rewrite Ht2, Ht1, app_assoc. split; [reflexivity |].
    intros ev Hin. apply in_app_or in Hin as [Hin | Hin].
    + destruct (Hq1 ev Hin) as [Hk1 Hr1]. split; [exact Hk1 |].
      intros Hrej. destruct (Hr1 Hrej) as [e He]. discriminate He.
    + apply Hq2, Hin.
Qed.

Lemma quiet_no_probe {A} (r : result A) (evs : list Event) :
  quiet r evs -> forall fee ev, In ev evs -> ~ probes_tier fee ev.
Proof.
  intros Hq fee ev Hin Hp. destruct (Hq ev Hin) as [Hk _]. apply Hk.
  destruct ev as [T c r']. destruct c; simpl in *; try contradiction; reflexivity.
Qed.

Lemma quiet_not_all_rejected {A} (r : result A) (evs : list Event) :
  quiet r evs -> ~ all_tiers_rejected evs.
Proof.
  intros Hq Hall. destruct (Hall 500) as (ev & Hin & _ & Hp); [simpl; auto |].
  exact (quiet_no_probe r evs Hq 500 ev Hin Hp).
Qed.

Lemma strict_of_quiet {A} (m : M Chain A) : emits m quiet -> emits m strict.
Proof.
  intros Hm w. destruct (Hm w) as (evs & Ht & Hq). exists evs.
  split; [exact Ht | split].
  - intros ev Hin Hrej _. now apply (Hq ev Hin).
  - intros Hall. now elim (quiet_not_all_rejected _ _ Hq).
Qed.

Lemma all_tiers_rejected_app_l {A} (r : result A) (evs1 evs2 : list Event) :
  quiet r evs1 -> all_tiers_rejected (evs1 ++ evs2) -> all_tiers_rejected evs2.
Proof.
  intros Hq Hall fee Hfee. destruct (Hall fee Hfee) as (ev & Hin & Hrej & Hp).
  apply in_app_or in Hin as [Hin | Hin].
  - now elim (quiet_no_probe r evs1 Hq fee ev Hin).
  - now exists ev.
Qed.

Lemma all_tiers_rejected_app_r {A} (r : result A) (evs1 evs2 : list Event) :
  quiet r evs2 -> all_tiers_rejected (evs1 ++ evs2) -> all_tiers_rejected evs1.
Proof.
  intros Hq Hall fee Hfee. destruct (Hall fee Hfee) as (ev & Hin & Hrej & Hp).
  apply in_app_or in Hin as [Hin | Hin].
  - now exists ev.
  - now elim (quiet_no_probe r evs2 Hq fee ev Hin).
Qed.

Lemma strict_bind_left {A B} (m : M Chain A) (k : A -> M Chain B) :
  emits m quiet -> (forall a, emits (k a) strict) -> emits (bind m k) strict.
Proof.
  intros Hm Hk w. destruct (Hm w) as (evs1 & Ht1 & Hq1). unfold bind.
  destruct (m w) as [[e | a] w1]; simpl in *.
  - exists evs1. split; [exact Ht1 | split].
    + intros ev Hin Hrej _. now exists e.
    + intros Hall. now elim (quiet_not_all_rejected _ _ Hq1).
  - destruct (Hk a w1) as (evs2 & Ht2 & Hs2 & Hn2).
    exists (evs1 ++ evs2). rewrite Ht2, Ht1, app_assoc. split; [reflexivity | split].
    + intros ev Hin Hrej Hkind. apply in_app_or in Hin as [Hin | Hin].
      * destruct (Hq1 ev Hin) as [_ Hr1]. destruct (Hr1 Hrej) as [e He]. discriminate He.
      * now apply (Hs2 ev).
    + intros Hall. apply Hn2. exact (all_tiers_rejected_app_l _ _ _ Hq1 Hall).
Qed.

Lemma strict_bind_right {A B} (m : M Chain A) (k : A -> M Chain B) :
  emits m strict -> (forall a, emits (k a) quiet) -> emits (bind m k) strict.
Proof.
  intros Hm Hk w. destruct (Hm w) as (evs1 & Ht1 & Hs1 & Hn1). unfold bind.
  destruct (m w) as [[e | a] w1]; simpl in *.
  - exists evs1. split; [exact Ht1 | split].
    + intros ev Hin Hrej Hkind. now exists e.
    + intros Hall. specialize (Hn1 Hall). unfold throw in *. congruence.
  - destruct (Hk a w1) as (evs2 & Ht2 & Hq2).
    exists (evs1 ++ evs2). rewrite Ht2, Ht1, app_assoc. split; [reflexivity | split].
    + intros ev Hin Hrej Hkind. apply in_app_or in Hin as [Hin | Hin].
      * destruct (Hs1 ev Hin Hrej Hkind) as [e He]. discriminate He.
      * now apply (Hq2 ev Hin).
    + intros Hall. apply (all_tiers_rejected_app_r _ _ _ Hq2) in Hall.
      specialize (Hn1 Hall). discriminate Hn1.
Qed.


(** *** The steps of the pipeline *)

Lemma feeTiers_distinct : NoDup feeTiers.
Proof.
  unfold feeTiers. repeat constructor; simpl; intros H;
    repeat (destruct H as [H | H]; [discriminate H |]); exact H.
Qed.

Lemma probe_kind tokenIn tokenOut amountIn attempt :
  kind (probe tokenIn tokenOut amountIn attempt) = KQuote.
Proof. reflexivity. Qed.

Lemma strict_getBestQuote (tokenIn tokenOut : string) (amountIn : Ethers.BigNumber) :
  emits (getBestQuote rpc tokenIn tokenOut amountIn) strict.
Proof.
  intros w. unfold getBestQuote.
  destruct (tryTiers_attempts rpc tokenIn tokenOut amountIn feeTiers w)
    as (attempts & rest & Htrace & Htiers & Hres).
  exists (map (probe tokenIn tokenOut amountIn) attempts).
  split; [exact Htrace | split].
  - intros ev Hin _ Hkind. apply in_map_iff in Hin as (a & <- & _).
    now elim Hkind.
  - intros Hall.
    destruct (fst (tryTiers rpc feeTiers tokenIn tokenOut amountIn w))
      as [e | [fee amountOut]].
    + destruct Hres as (-> & _). reflexivity.
    + exfalso. destruct Hres as (before & -> & Hbefore).
      rewrite map_app in Htiers. simpl in Htiers. rewrite <- app_assoc in Htiers.
      pose proof feeTiers_distinct as Hnd. rewrite Htiers in Hnd.
      apply NoDup_remove_2 in Hnd.
      destruct (Hall fee) as (ev & Hin & Hrej & Hp).
      { rewrite Htiers. apply in_or_app. right. now left. }
      apply in_map_iff in Hin as ([fee' r] & <- & Hin).
      simpl in Hp, Hrej. subst fee'. destruct Hrej as [e ->].
      apply in_app_or in Hin as [Hin | [Hin | []]]; [| discriminate Hin].
      apply Hnd, in_or_app. left.
      apply in_map_iff. now exists (fee, inl e).
Qed.

Lemma quiet_getTokenDecimals (tokenAddress : string) :
  emits (getTokenDecimals rpc tokenAddress) quiet.
Proof.
  unfold getTokenDecimals.
  destruct (String.eqb _ _); [apply quiet_ret | apply quiet_await; discriminate].
Qed.

Lemma quiet_parseAmountIn (amount tokenRef : JS.value) :
  emits (parseAmountIn rpc amount tokenRef) quiet.
Proof.
  unfold parseAmountIn. destruct (JS.falsy amount); [apply quiet_raise |].
  apply quiet_bind; [apply quiet_lift | intros tokenAddress].
  apply quiet_bind; [apply quiet_getTokenDecimals | intros decimals].
  apply quiet_lift.
Qed.

Ltac quiet_step :=
  first
    [ apply quiet_ret | apply quiet_lift | apply quiet_console_log
    | apply quiet_now | apply quiet_parseAmountIn
    | apply quiet_await; discriminate
    | apply quiet_bind; [| intros ?] ].

Lemma strict_swap_try (req : Request) :
  emits (swap_try rpc Date_now Wallet req) strict.
Proof.
  unfold swap_try.
  do 5 (apply strict_bind_left; [quiet_step | intros ?]).
  destruct (Ethers.lt _ _); [apply strict_of_quiet; quiet_step |].
  apply strict_bind_left; [quiet_step | intros allowance].
  apply strict_bind_left.
  { destruct (Ethers.lt _ _); repeat quiet_step. }
  intros _.
  apply strict_bind_right; [apply strict_getBestQuote | intros [fee amountOut]].
  repeat quiet_step.
Qed.

Lemma catch500_run (text : string) (body : M Chain Response) w :
  fst (catch500 text body w)
  = match fst (body w) with
    | inr response => response
    | inl error => {| status := 500; json := JError (message error) |}
    end /\
  trace (snd (catch500 text body w)) = trace (snd (body w)).
Proof. unfold catch500. destruct (body w) as [[e | response] w']; split; reflexivity. Qed.


(** *** Amount normalisation *)

Lemma falsy_false (v : JS.value) :
  JS.falsy v = false -> v = Some (JS.str v) /\ JS.str v <> "".
Proof.
  destruct v as [s |]; simpl; [| discriminate].
  intros H. apply String.eqb_neq in H. now split.
Qed.

Lemma toAddress_total (token : JS.value) :
  JS.falsy token = false -> exists a, toAddress token = ok a.
Proof. intros H. unfold toAddress. rewrite H. eexists. reflexivity. Qed.

Lemma getTokenDecimals_native (tokenAddress : string) w :
  eq_nocase tokenAddress WETH_ADDRESS = true ->
  getTokenDecimals rpc tokenAddress w = (ok 18, w).
Proof.
  rewrite eq_nocase_lower. unfold getTokenDecimals. now intros ->.
Qed.

Lemma getTokenDecimals_call (tokenAddress : string) w :
  eq_nocase tokenAddress WETH_ADDRESS = false ->
  getTokenDecimals rpc tokenAddress w = await rpc (Decimals tokenAddress) w.
Proof.
  rewrite eq_nocase_lower. unfold getTokenDecimals. now intros ->.
Qed.

Lemma parseAmountIn_run (amount tokenRef : JS.value) (tokenAddress : string) w :
  JS.falsy amount = false ->
  toAddress tokenRef = ok tokenAddress ->
  parseAmountIn rpc amount tokenRef w
  = (rbind (fst (getTokenDecimals rpc tokenAddress w))
       (Ethers.parseUnits (JS.str amount)),
     snd (getTokenDecimals rpc tokenAddress w)).
Proof.
  intros Ha Ht. unfold parseAmountIn, bind, lift. rewrite Ha, Ht. unfold ok.
  destruct (getTokenDecimals rpc tokenAddress w) as [[e | decimals] w']; reflexivity.
Qed.

(** Normalisation makes no call but, at most, one read of [decimals]. *)
Lemma parseAmountIn_reads_decimals (amount tokenRef : JS.value) :
  emits (parseAmountIn rpc amount tokenRef)
    (fun _ evs => Forall (fun ev => kind ev = KDecimals) evs).
Proof.
  intros w. unfold parseAmountIn.
  destruct (JS.falsy amount).
  { exists []. rewrite app_nil_r. split; [reflexivity | constructor]. }
  unfold bind, lift.
  destruct (toAddress tokenRef) as [e | tokenAddress].
  { exists []. rewrite app_nil_r. split; [reflexivity | constructor]. }
  unfold getTokenDecimals.
  destruct (String.eqb _ _).
  { exists []. rewrite app_nil_r. split; [reflexivity | constructor]. }
  unfold await. destruct (rpc Z (Decimals tokenAddress) (chain w)) as [[e | d] ch];
    eexists [_]; (split; [reflexivity | repeat constructor]).
Qed.

(** *** The balance check *)

Lemma swap_short_balance (req : Request) w (owner tokenInAddress : string)
    (amountInWei balance : Ethers.BigNumber) (w1 : World Chain) (ch2 : Chain) :
  JS.falsy (authorization req) = false ->
  missing_parameters req = false ->
  Wallet (JS.str (authorization req)) = ok owner ->
  toAddress (tokenIn req) = ok tokenInAddress ->
  parseAmountIn rpc (amountIn req) (tokenIn req) w = (ok amountInWei, w1) ->
  rpc _ (BalanceOf tokenInAddress owner) (chain w1) = (ok balance, ch2) ->
  balance < amountInWei ->
  swap rpc Date_now Wallet req w
  = ({| status := 400; json := JError "Insufficient token balance." |},
     {| chain := ch2;
        trace := trace w1 ++ [Ev (BalanceOf tokenInAddress owner) (ok balance)];
        console := console w1 |}).
Proof.
  intros Hauth Hmiss Hwallet Hin Hparse Hrpc Hlt.
  assert (Hout : exists b, toAddress (tokenOut req) = ok b).
  { apply toAddress_total. unfold missing_parameters in Hmiss.
    apply orb_false_iff in Hmiss as [_ Hmiss]. exact Hmiss. }
  destruct Hout as [tokenOutAddress Hout].
  unfold swap. rewrite Hauth, Hmiss.
  unfold catch500, swap_try, bind, lift.
  rewrite Hwallet, Hin, Hout. unfold ok in *. rewrite Hparse.
  unfold await. rewrite Hrpc.
  unfold Ethers.lt. apply Z.ltb_lt in Hlt. rewrite Hlt. reflexivity.
Qed.

(** *** The quote handler *)

Lemma quote_success (req : Request) w (tokenInAddress tokenOutAddress : string)
    (amountInWei : Ethers.BigNumber) (w1 : World Chain)
    (fee : Z) (amountOut : Ethers.BigNumber) (w2 : World Chain)
    (outDecimals : Z) (w3 : World Chain) (text : string) :
  missing_parameters req = false ->
  toAddress (tokenIn req) = ok tokenInAddress ->
  toAddress (tokenOut req) = ok tokenOutAddress ->
  parseAmountIn rpc (amountIn req) (tokenIn req) w = (ok amountInWei, w1) ->
  getBestQuote rpc tokenInAddress tokenOutAddress amountInWei w1
  = (ok (fee, amountOut), w2) ->
  getTokenDecimals rpc tokenOutAddress w2 = (ok outDecimals, w3) ->
  Ethers.formatUnits amountOut outDecimals = ok text ->
  quote rpc req w
  = ({| status := 200;
        json := JQuote fee text (Ethers.toString amountOut) |}, w3).
Proof.
  intros Hmiss Hin Hout Hparse Hquote Hdec Htext.
  unfold quote. rewrite Hmiss.
  unfold catch500, quote_try, bind, lift.
  rewrite Hin, Hout. unfold ok in *. rewrite Hparse, Hquote, Hdec, Htext.
  reflexivity.
Qed.

End Pipeline.

(** ** The handlers *)

Section Handlers.

Context {Chain : Type}.
Variable rpc : forall T : Type, Call T -> Chain -> result T * Chain.
Variable Date_now : Chain -> Z.
Variable Wallet : string -> result string.

Implicit Types w : World Chain.

(** C5.  When the balance read for the signer and the resolved input
    token is below the normalised amount, the request is answered 400 with
    the insufficient-balance error, and the calls made are the reads of
    [decimals] and [balanceOf] only: no allowance read, approval, wait,
    quote or swap submission. *)
Theorem swap_insufficient_balance (req : Request) w
    (owner tokenInAddress : string) (amountInWei balance : Ethers.BigNumber)
    (w1 : World Chain) (ch2 : Chain) :
  JS.falsy (authorization req) = false ->
  missing_parameters req = false ->
  Wallet (JS.str (authorization req)) = ok owner ->
  toAddress (tokenIn req) = ok tokenInAddress ->
  parseAmountIn rpc (amountIn req) (tokenIn req) w = (ok amountInWei, w1) ->
  rpc _ (BalanceOf tokenInAddress owner) (chain w1) = (ok balance, ch2) ->
  balance < amountInWei ->
  fst (swap rpc Date_now Wallet req w)
  = {| status := 400; json := JError "Insufficient token balance." |} /\
  exists evs,
    trace (snd (swap rpc Date_now Wallet req w)) = trace w ++ evs /\
    Forall (fun ev => kind ev = KDecimals \/ kind ev = KBalanceOf) evs /\
    Forall (fun ev => ~ after_balance_check ev) evs.
Proof.
  intros Hauth Hmiss Hwallet Hin Hparse Hrpc Hlt.
  rewrite (swap_short_balance rpc Date_now Wallet req w owner tokenInAddress
             amountInWei balance w1 ch2) by assumption.
  split; [reflexivity |].
  destruct (parseAmountIn_reads_decimals rpc (amountIn req) (tokenIn req) w)
    as (evs & Htrace & Hevs).
  rewrite Hparse in Htrace. simpl in Htrace.
  exists (evs ++ [Ev (BalanceOf tokenInAddress owner) (ok balance)]).
  simpl. rewrite Htrace, app_assoc. split; [reflexivity |].
  split; (apply <- Forall_app; split).
  - eapply Forall_impl; [| exact Hevs]. intros ev H. now left.
  - constructor; [now right | constructor].
  - eapply Forall_impl; [| exact Hevs]. intros ev H. unfold after_balance_check.
    rewrite H. simpl. intuition discriminate.
  - constructor; [| constructor].
    unfold after_balance_check. simpl. intuition discriminate.
Qed.

(** C4.  A request without the credential is answered 401 and one without
    a required field 400, both before any call is made; a balance below the
    amount is answered 400; every exception of the pipeline is answered 500
    with its message: a credential or an amount that is malformed, the
    rejection of any call other than a fee-tier probe, and the rejection of a
    probe of every tier. *)
Theorem swap_status_codes (req : Request) w :
  let response := fst (swap rpc Date_now Wallet req w) in
  let after := snd (swap rpc Date_now Wallet req w) in
  (JS.falsy (authorization req) = true ->
   status response = 401 /\ after = w) /\
  (JS.falsy (authorization req) = false -> missing_parameters req = true ->
   status response = 400 /\ after = w) /\
  (JS.falsy (authorization req) = false -> missing_parameters req = false ->
   (forall owner tokenInAddress amountInWei balance w1 ch2,
      Wallet (JS.str (authorization req)) = ok owner ->
      toAddress (tokenIn req) = ok tokenInAddress ->
      parseAmountIn rpc (amountIn req) (tokenIn req) w = (ok amountInWei, w1) ->
      rpc _ (BalanceOf tokenInAddress owner) (chain w1) = (ok balance, ch2) ->
      balance < amountInWei ->
      status response = 400) /\
   (forall e w', swap_try rpc Date_now Wallet req w = (throw e, w') ->
      response = {| status := 500; json := JError (message e) |}) /\
   (forall e, Wallet (JS.str (authorization req)) = throw e ->
      response = {| status := 500; json := JError (message e) |}) /\
   (forall owner e w1,
      Wallet (JS.str (authorization req)) = ok owner ->
      parseAmountIn rpc (amountIn req) (tokenIn req) w = (throw e, w1) ->
      response = {| status := 500; json := JError (message e) |}) /\
   exists evs,
     trace after = trace w ++ evs /\
     (forall ev, In ev evs -> rejected ev -> kind ev <> KQuote ->
                 status response = 500) /\
     (all_tiers_rejected evs ->
      response = {| status := 500;
                    json := JError "No valid liquidity pool found." |})).
Proof.
  cbv zeta. split; [| split].
  - intros Hauth. unfold swap. rewrite Hauth. split; reflexivity.
  - intros Hauth Hmiss. unfold swap. rewrite Hauth, Hmiss. split; reflexivity.
  - intros Hauth Hmiss. split; [| split; [| split; [| split]]].
    + intros owner tokenInAddress amountInWei balance w1 ch2 H1 H2 H3 H4 H5.
      now rewrite (swap_short_balance rpc Date_now Wallet req w owner
                     tokenInAddress amountInWei balance w1 ch2).
    + intros e w' Hthrow. unfold swap. rewrite Hauth, Hmiss.
      unfold catch500. now rewrite Hthrow.
    + intros e Hwallet. unfold swap. rewrite Hauth, Hmiss.
      unfold catch500, swap_try, bind, lift. now rewrite Hwallet.
    + intros owner e w1 Hwallet Hparse.
      pose proof Hmiss as Hfields. unfold missing_parameters in Hfields.
      apply orb_false_iff in Hfields as [Hfields Hout].
      apply orb_false_iff in Hfields as [_ Hin].
      destruct (toAddress_total _ Hin) as [tokenInAddress Hin'].
      destruct (toAddress_total _ Hout) as [tokenOutAddress Hout'].
      unfold swap. rewrite Hauth, Hmiss.
      unfold catch500, swap_try, bind, lift.
      rewrite Hwallet, Hin', Hout'. unfold ok, throw in *. now rewrite Hparse.
    + unfold swap. rewrite Hauth, Hmiss.
      destruct (catch500_run "Error executing swap:"
                  (swap_try rpc Date_now Wallet req) w) as [Hresp Htrace].
      destruct (strict_swap_try rpc Date_now Wallet req w)
        as (evs & Hevs & Hstrict & Hnone).
      exists evs. rewrite Htrace, Hresp. split; [exact Hevs | split].
      * intros ev Hin Hrej Hkind.
        destruct (Hstrict ev Hin Hrej Hkind) as [e ->]. reflexivity.
      * intros Hall. now rewrite (Hnone Hall).
Qed.

(** The precision: 18 without a call for the wrapped-native token,
    otherwise what [decimals] answers; an amount that is missing or empty
    is rejected. *)
Lemma parseAmountIn_precision (tokenRef : JS.value) (tokenAddress : string) w :
  toAddress tokenRef = ok tokenAddress ->
  (forall amount, amount <> "" ->
     eq_nocase tokenAddress WETH_ADDRESS = true ->
     parseAmountIn rpc (Some amount) tokenRef w
     = (Ethers.parseUnits amount 18, w)) /\
  (forall amount reply ch, amount <> "" ->
     eq_nocase tokenAddress WETH_ADDRESS = false ->
     rpc _ (Decimals tokenAddress) (chain w) = (reply, ch) ->
     parseAmountIn rpc (Some amount) tokenRef w
     = (rbind reply (Ethers.parseUnits amount),
        {| chain := ch;
           trace := trace w ++ [Ev (Decimals tokenAddress) reply];
           console := console w |})) /\
  (forall amount, JS.falsy amount = true ->
     parseAmountIn rpc amount tokenRef w = (throw (Error "Missing amountIn"), w)).
Proof.
  intros Haddr. split; [| split].
  - intros amount Hne Hnative.
    rewrite (parseAmountIn_run rpc (Some amount) tokenRef tokenAddress w);
      [| now apply String.eqb_neq | exact Haddr].
    now rewrite getTokenDecimals_native.
  - intros amount reply ch Hne Hother Hrpc.
    rewrite (parseAmountIn_run rpc (Some amount) tokenRef tokenAddress w);
      [| now apply String.eqb_neq | exact Haddr].
    rewrite getTokenDecimals_call by assumption.
    unfold await. now rewrite Hrpc.
  - intros amount Hfalsy. unfold parseAmountIn. now rewrite Hfalsy.
Qed.

End Handlers.

(** C7.  [parseAmountIn] shifts the decimal point of the amount right by
    the precision of the token: 18, without a call, when the token resolves
    to the wrapped-native token, otherwise what the token's [decimals]
    answers.  So ["1"] of the native alias is [10^18] and ["0.5"] of a token
    with 6 decimals is [500000].  An amount that is missing or empty is
    rejected. *)
Theorem parseAmountIn_base_units :
  (forall whole fraction decimals,
     decimal_digits whole -> decimal_digits fraction ->
     whole <> "" \/ fraction <> "" ->
     Ethers.len fraction <= decimals <= 256 ->
     Ethers.parseUnits (whole ++ "." ++ fraction)%string decimals
     = ok (decimal_value whole * 10 ^ decimals
           + decimal_value fraction * 10 ^ (decimals - Ethers.len fraction))) /\
  (forall whole decimals,
     decimal_digits whole -> whole <> "" -> 0 <= decimals <= 256 ->
     Ethers.parseUnits whole decimals = ok (decimal_value whole * 10 ^ decimals)) /\
  (forall (Chain : Type) (rpc : forall T, Call T -> Chain -> result T * Chain)
          (w : World Chain) (tokenRef : JS.value) (tokenAddress : string),
     toAddress tokenRef = ok tokenAddress ->
     (forall amount, amount <> "" ->
        eq_nocase tokenAddress WETH_ADDRESS = true ->
        parseAmountIn rpc (Some amount) tokenRef w
        = (Ethers.parseUnits amount 18, w)) /\
     (forall amount reply ch, amount <> "" ->
        eq_nocase tokenAddress WETH_ADDRESS = false ->
        rpc _ (Decimals tokenAddress) (chain w) = (reply, ch) ->
        parseAmountIn rpc (Some amount) tokenRef w
        = (rbind reply (Ethers.parseUnits amount),
           {| chain := ch;
              trace := trace w ++ [Ev (Decimals tokenAddress) reply];
              console := console w |})) /\
     (forall amount, JS.falsy amount = true ->
        parseAmountIn rpc amount tokenRef w
        = (throw (Error "Missing amountIn"), w))) /\
  (forall (Chain : Type) (rpc : forall T, Call T -> Chain -> result T * Chain)
          (w : World Chain),
     parseAmountIn rpc (Some "1") (Some NATIVE_ALIAS) w = (ok (10 ^ 18), w)) /\
  (forall (Chain : Type) (rpc : forall T, Call T -> Chain -> result T * Chain)
          (w : World Chain) (token : string) (ch : Chain),
     toAddress (Some token) = ok token ->
     eq_nocase token WETH_ADDRESS = false ->
     rpc _ (Decimals token) (chain w) = (ok 6, ch) ->
     fst (parseAmountIn rpc (Some "0.5") (Some token) w) = ok 500000).
Proof.
  split; [exact Digits.parseUnits_point |].
  split; [exact Digits.parseUnits_integer |].
  split; [intros Chain rpc w tokenRef tokenAddress;
          exact (parseAmountIn_precision rpc tokenRef tokenAddress w) |].
  split.
  - intros Chain rpc w.
    destruct (parseAmountIn_precision rpc (Some NATIVE_ALIAS) WETH_ADDRESS w eq_refl)
      as (Hnative & _ & _).
    rewrite Hnative; [reflexivity | discriminate | reflexivity].
  - intros Chain rpc w token ch Haddr Hother Hrpc.
    destruct (parseAmountIn_precision rpc (Some token) token w Haddr)
      as (_ & Hcall & _).
    rewrite (Hcall "0.5" (ok 6) ch); [reflexivity | discriminate | assumption ..].
Qed.

Lemma parseAmountIn_base_units_witness :
  Ethers.parseUnits "0.5" 6
  = ok (decimal_value "0" * 10 ^ 6 + decimal_value "5" * 10 ^ (6 - Ethers.len "5")) /\
  fst (parseAmountIn (Mock.rpc Mock.no_quotes 0 0) (Some "0.5")
         (Some Mock.TOKEN6) Mock.start) = ok 500000.
Proof.
  destruct parseAmountIn_base_units as (Hpoint & _ & _ & _ & Hsix).
  split.
  - apply (Hpoint "0" "5" 6); [reflexivity | reflexivity | left; discriminate |].
    split; intros H; discriminate H.
  - apply (Hsix Mock.Chain _ Mock.start Mock.TOKEN6 tt); reflexivity.
Defined.

Lemma swap_insufficient_balance_witness :
  fst (Mock.swap Mock.quotes_3000 5 0 (Mock.request Mock.KEY "10" "eth" "0xTOKEN"))
  = {| status := 400; json := JError "Insufficient token balance." |} /\
  exists evs,
    trace (snd (Mock.swap Mock.quotes_3000 5 0
                  (Mock.request Mock.KEY "10" "eth" "0xTOKEN")))
    = trace Mock.start ++ evs /\
    Forall (fun ev => kind ev = KDecimals \/ kind ev = KBalanceOf) evs /\
    Forall (fun ev => ~ after_balance_check ev) evs.
Proof.
  apply (swap_insufficient_balance (Mock.rpc Mock.quotes_3000 5 0)
           Mock.Date_now Mock.Wallet (Mock.request Mock.KEY "10" "eth" "0xTOKEN")
           Mock.start Mock.SIGNER WETH_ADDRESS (10 ^ 19) 5 Mock.start tt);
    reflexivity.
Defined.

(** The balance shortfall is answered 400, not 500. *)
Lemma swap_insufficient_balance_is_400 :
  fst (Mock.swap Mock.quotes_3000 5 0 (Mock.request Mock.KEY "10" "eth" "0xTOKEN"))
  = {| status := 400; json := JError "Insufficient token balance." |} /\
  status (fst (Mock.swap Mock.quotes_3000 5 0
                 (Mock.request Mock.KEY "10" "eth" "0xTOKEN"))) <> 500.
Proof. split; [reflexivity | discriminate]. Qed.

Lemma swap_status_codes_witness :
  status (fst (Mock.swap Mock.quotes_3000 5 0
                 {| authorization := None; amountIn := Some "10";
                    tokenIn := Some "eth"; tokenOut := Some "0xTOKEN" |})) = 401 /\
  status (fst (Mock.swap Mock.quotes_3000 5 0
                 (Mock.request Mock.KEY "10" "eth" "0xTOKEN"))) = 400 /\
  fst (Mock.swap Mock.no_quotes (10 ^ 20) (10 ^ 20)
         (Mock.request Mock.KEY "10" "eth" "0xTOKEN"))
  = {| status := 500; json := JError "No valid liquidity pool found." |}.
Proof.
  split; [| split].
  - apply (swap_status_codes (Mock.rpc Mock.quotes_3000 5 0) Mock.Date_now
             Mock.Wallet _ Mock.start). reflexivity.
  - destruct (swap_status_codes (Mock.rpc Mock.quotes_3000 5 0) Mock.Date_now
                Mock.Wallet (Mock.request Mock.KEY "10" "eth" "0xTOKEN") Mock.start)
      as (_ & _ & H).
    destruct (H eq_refl eq_refl) as (Hshort & _).
    apply (Hshort Mock.SIGNER WETH_ADDRESS (10 ^ 19) 5 Mock.start tt); reflexivity.
  - destruct (swap_status_codes (Mock.rpc Mock.no_quotes (10 ^ 20) (10 ^ 20))
                Mock.Date_now Mock.Wallet
                (Mock.request Mock.KEY "10" "eth" "0xTOKEN") Mock.start)
      as (_ & _ & H).
    destruct (H eq_refl eq_refl) as (_ & _ & _ & _ & evs & Htrace & _ & Hnone).
    apply Hnone. vm_compute in Htrace. subst evs.
    intros fee [<- | [<- | [<- | []]]].
    + eexists. split; [do 2 right; left; reflexivity |].
      split; [eexists; reflexivity | exact eq_refl].
    + eexists. split; [do 3 right; left; reflexivity |].
      split; [eexists; reflexivity | exact eq_refl].
    + eexists. split; [do 4 right; left; reflexivity |].
      split; [eexists; reflexivity | exact eq_refl].
Defined.

(** C8.  On success the quote handler answers with the tier chosen, the
    quoted amount formatted with the precision of the output token, resolved
    as for the input, and the quoted amount in decimal digits; the formatted
    text reads back, at that precision, as the quoted amount.  Quoting
    ["10"] of the native alias against a token with 8 decimals, for an oracle
    that first answers at tier 3000 with [5000000000], gives the amount
    ["50.0"]. *)
Theorem quote_response :
  (forall (Chain : Type) (rpc : forall T, Call T -> Chain -> result T * Chain)
          (req : Request) (w w1 w2 w3 : World Chain)
          (tokenInAddress tokenOutAddress text : string)
          (amountInWei amountOut : Ethers.BigNumber) (fee outDecimals : Z),
     missing_parameters req = false ->
     toAddress (tokenIn req) = ok tokenInAddress ->
     toAddress (tokenOut req) = ok tokenOutAddress ->
     parseAmountIn rpc (amountIn req) (tokenIn req) w = (ok amountInWei, w1) ->
     getBestQuote rpc tokenInAddress tokenOutAddress amountInWei w1
     = (ok (fee, amountOut), w2) ->
     getTokenDecimals rpc tokenOutAddress w2 = (ok outDecimals, w3) ->
     Ethers.formatUnits amountOut outDecimals = ok text ->
     quote rpc req w
     = ({| status := 200;
           json := JQuote fee text (Ethers.toString amountOut) |}, w3)) /\
  (forall amountOut outDecimals,
     0 <= amountOut -> 1 <= outDecimals <= 256 ->
     exists text,
       Ethers.formatUnits amountOut outDecimals = ok text /\
       Ethers.parseUnits text outDecimals = ok amountOut) /\
  fst (Mock.quote Mock.quotes_3000 (Mock.quote_request "10" "eth" "0xTOKEN"))
  = {| status := 200; json := JQuote 3000 "50.0" "5000000000" |}.
Proof.
  split; [| split; [exact Format.formatUnits_parseUnits | reflexivity]].
  intros Chain rpc req w w1 w2 w3 tokenInAddress tokenOutAddress text
    amountInWei amountOut fee outDecimals.
  apply quote_success.
Qed.

Lemma quote_response_witness :
  Mock.quote Mock.quotes_3000 (Mock.quote_request "10" "eth" "0xTOKEN")
  = ({| status := 200;
        json := JQuote 3000 "50.0" (Ethers.toString 5000000000) |},
     snd (Mock.quote Mock.quotes_3000 (Mock.quote_request "10" "eth" "0xTOKEN"))).
Proof.
  apply (proj1 quote_response Mock.Chain (Mock.rpc Mock.quotes_3000 0 0)
           (Mock.quote_request "10" "eth" "0xTOKEN") Mock.start Mock.start
           (snd (getBestQuote (Mock.rpc Mock.quotes_3000 0 0) WETH_ADDRESS
                   "0xTOKEN" (10 ^ 19) Mock.start))
           (snd (Mock.quote Mock.quotes_3000
                   (Mock.quote_request "10" "eth" "0xTOKEN")))
           WETH_ADDRESS "0xTOKEN" "50.0" (10 ^ 19) 5000000000 3000 8);
    reflexivity.
Defined.

(** The amount of the scenario is formatted ["50.0"], not ["50"]. *)
Lemma quote_scenario_amountOut :
  json (fst (Mock.quote Mock.quotes_3000 (Mock.quote_request "10" "eth" "0xTOKEN")))
  = JQuote 3000 "50.0" "5000000000" /\
  fst (Mock.quote Mock.quotes_3000 (Mock.quote_request "10" "eth" "0xTOKEN"))
  <> {| status := 200; json := JQuote 3000 "50" "5000000000" |}.
Proof. split; [reflexivity | discriminate]. Qed.

(** ** The order of the calls *)

Section Call_order.

Context {Chain : Type}.
Variable rpc : forall T : Type, Call T -> Chain -> result T * Chain.
Variable Date_now : Chain -> Z.
Variable Wallet : string -> result string.

Implicit Types w : World Chain.

(** Normalisation adds nothing to the trace, or one read of [decimals] of
    the resolved token; it leaves the console alone. *)
Lemma parseAmountIn_events (amount tokenRef : JS.value) w :
  exists decs,
    trace (snd (parseAmountIn rpc amount tokenRef w)) = trace w ++ decs /\
    console (snd (parseAmountIn rpc amount tokenRef w)) = console w /\
    (decs = [] \/
     exists tokenAddress reply,
       toAddress tokenRef = ok tokenAddress /\
       decs = [Ev (Decimals tokenAddress) reply] /\
       (failed reply -> failed (fst (parseAmountIn rpc amount tokenRef w)))).
Proof.
  unfold parseAmountIn. destruct (JS.falsy amount).
  { exists []. rewrite app_nil_r. auto. }
  unfold bind, lift. destruct (toAddress tokenRef) as [e | tokenAddress].
  { exists []. rewrite app_nil_r. auto. }
  unfold getTokenDecimals. destruct (String.eqb _ _).
  { exists []. rewrite app_nil_r. auto. }
  unfold await.
  destruct (rpc Z (Decimals tokenAddress) (chain w)) as [[e | d] ch];
    (eexists [_]; split; [reflexivity | split; [reflexivity |]]; right;
     eexists; eexists; split; [reflexivity | split; [reflexivity |]]).
  - intros _. now exists e.
  - intros [e He]. discriminate He.
Qed.

Lemma getTokenDecimals_events (tokenAddress : string) w :
  exists decs,
    trace (snd (getTokenDecimals rpc tokenAddress w)) = trace w ++ decs /\
    (decs = [] /\
     fst (getTokenDecimals rpc tokenAddress w) = ok 18 /\
     eq_nocase tokenAddress WETH_ADDRESS = true
     \/
     decs = [Ev (Decimals tokenAddress)
               (fst (getTokenDecimals rpc tokenAddress w))] /\
     eq_nocase tokenAddress WETH_ADDRESS = false).
Proof.
  unfold getTokenDecimals. rewrite <- eq_nocase_lower.
  destruct (eq_nocase tokenAddress WETH_ADDRESS).
  { exists []. rewrite app_nil_r. auto. }
  unfold await. destruct (rpc Z (Decimals tokenAddress) (chain w)) as [r ch].
  eexists [_]. split; [reflexivity | right; split; reflexivity].
Qed.

Lemma attempts_at_most_three (attempts : list (Z * result Ethers.BigNumber))
    (rest : list Z) :
  feeTiers = map fst attempts ++ rest -> (List.length attempts <= 3)%nat.
Proof.
  intros H. apply (f_equal (@List.length Z)) in H.
  rewrite length_app, length_map in H. simpl in H. lia.
Qed.

Lemma probes_kinds tokenIn tokenOut amountIn attempts :
  map kind (map (probe tokenIn tokenOut amountIn) attempts)
  = repeat KQuote (List.length attempts).
Proof. induction attempts as [|a l IH]; simpl; [reflexivity | now rewrite IH]. Qed.

Lemma getBestQuote_events tokenIn tokenOut amountIn w :
  exists attempts,
    trace (snd (getBestQuote rpc tokenIn tokenOut amountIn w))
    = trace w ++ map (probe tokenIn tokenOut amountIn) attempts /\
    (List.length attempts <= 3)%nat /\
    (forall fee amountOut,
       fst (getBestQuote rpc tokenIn tokenOut amountIn w) = ok (fee, amountOut) ->
       In (fee, ok amountOut) attempts /\ In fee feeTiers) /\
    (forall e,
       fst (getBestQuote rpc tokenIn tokenOut amountIn w) = throw e ->
       e = Error "No valid liquidity pool found.").
Proof.
  unfold getBestQuote.
  destruct (tryTiers_attempts rpc tokenIn tokenOut amountIn feeTiers w)
    as (attempts & rest & Htrace & Htiers & Hres).
  exists attempts.
  split; [exact Htrace | split; [exact (attempts_at_most_three _ _ Htiers) |]].
  destruct (fst (tryTiers rpc feeTiers tokenIn tokenOut amountIn w))
    as [e | [fee amountOut]].
  - destruct Hres as (-> & _). split; [intros ? ? H; discriminate H |].
    intros e H. now injection H as <-.
  - destruct Hres as (before & -> & _). split; [| intros e H; discriminate H].
    intros fee' amountOut' H. injection H as <- <-. split.
    + apply in_or_app. right. now left.
    + rewrite Htiers, map_app. apply in_or_app. left. apply in_or_app. right.
      now left.
Qed.

(** Symbolic execution of a handler: one awaited call, one branch or one
    opaque step (normalisation, fee-tier discovery) at a time. *)
Ltac exec_reduce :=
  cbn beta iota zeta; cbn [fst snd trace chain console].

Ltac exec_step :=
  match goal with
  | |- context [parseAmountIn rpc ?a ?t ?w] =>
      let decs := fresh "decs" in
      let Hd := fresh "Hdecs" in
      let Hs := fresh "Hshape" in
      destruct (parseAmountIn_events a t w) as (decs & Hd & _ & Hs);
      destruct (parseAmountIn rpc a t w) as [[?e | ?amountInWei] ?world];
      cbn [fst snd] in Hd, Hs
  | |- context [getBestQuote rpc ?a ?b ?c ?w] =>
      let attempts := fresh "attempts" in
      let Hq := fresh "Hquotes" in
      let Hn := fresh "Hcount" in
      let Hok := fresh "Hquoted" in
      let He := fresh "Hnone" in
      destruct (getBestQuote_events a b c w) as (attempts & Hq & Hn & Hok & He);
      destruct (getBestQuote rpc a b c w) as [[?e | [?fee ?amountOut]] ?world];
      cbn [fst snd trace chain console] in Hq, Hok, He
  | |- context [getTokenDecimals rpc ?a ?w] =>
      let decs := fresh "decs" in
      let Hd := fresh "Hdecs" in
      let Hs := fresh "Hshape" in
      destruct (getTokenDecimals_events a w) as (decs & Hd & Hs);
      destruct (getTokenDecimals rpc a w) as [[?e | ?decimals] ?world];
      cbn [fst snd] in Hd, Hs;
      destruct Hs as [(-> & ? & ?) | (-> & ?)]
  | |- context [rpc ?T ?c ?ch] =>
      destruct (rpc T c ch) as [[?e | ?v] ?st] eqn:?
  | |- context [if Ethers.lt ?a ?b then _ else _] =>
      destruct (Ethers.lt a b) eqn:?
  | |- context [match ?r with inl _ => _ | inr _ => _ end] =>
      destruct r as [?e | ?v] eqn:?
  end; exec_reduce.

Ltac exec :=
  unfold bind, lift, ret, raise, await, console_log, now, ok, throw;
  exec_reduce; repeat exec_step.

(** The events of a finished run, read off the worlds met on the way. *)
Ltac collect_events :=
  repeat match goal with
    | H : trace ?w = _ |- context [trace ?w] => rewrite H
    end;
  rewrite <- ?app_assoc;
  first [ eexists; split; [reflexivity |]
        | exists []; split; [now rewrite app_nil_r |] ].

Ltac count_probes :=
  repeat match goal with
    | Hn : (List.length ?attempts <= 3)%nat |- _ =>
        destruct attempts as [| ? [| ? [| ? [| ? ?]]]];
        [ | | | | exfalso; simpl in Hn; lia ]; clear Hn
    | H : ?decs = [] \/ _ |- _ =>
        destruct H as [-> | H]
    | H : exists _, _ |- _ => destruct H
    | H : _ /\ _ |- _ => destruct H
    | H : ?decs = [_] |- _ => subst decs
    end.

Lemma swap_try_in_order (req : Request) w :
  exists evs,
    trace (snd (swap_try rpc Date_now Wallet req w)) = trace w ++ evs /\
    in_order (map kind evs) swap_calls = true.
Proof.
  unfold swap_try. exec.
  all: collect_events.
  all: rewrite ?map_app; count_probes; reflexivity.
Qed.


Lemma quote_try_in_order (req : Request) w :
  exists evs,
    trace (snd (quote_try rpc req w)) = trace w ++ evs /\
    in_order (map kind evs) quote_calls = true.
Proof.
  unfold quote_try. exec.
  all: collect_events.
  all: rewrite ?map_app; count_probes; reflexivity.
Qed.

(** X1.  Whatever the network answers, the calls of a swap request are
    made in the order of the pipeline, none of them twice: one read of
    [decimals], of the balance and of the allowance, one approval with its
    wait, at most three probes, one submission with its wait. *)
Theorem swap_calls_in_order (req : Request) w :
  exists evs,
    trace (snd (swap rpc Date_now Wallet req w)) = trace w ++ evs /\
    in_order (map kind evs) swap_calls = true.
Proof.
  unfold swap.
  destruct (JS.falsy (authorization req));
    [exists []; split; [now rewrite app_nil_r | reflexivity] |].
  destruct (missing_parameters req);
    [exists []; split; [now rewrite app_nil_r | reflexivity] |].
  destruct (catch500_run "Error executing swap:"
              (swap_try rpc Date_now Wallet req) w) as [_ ->].
  apply swap_try_in_order.
Qed.

(** X2.  A quote request only reads: its calls are reads of [decimals]
    and probes of the quoter, in the order input precision, at most three
    probes, output precision; it never reads a balance or an allowance and
    never sends a transaction. *)
Theorem quote_calls_in_order (req : Request) w :
  exists evs,
    trace (snd (quote rpc req w)) = trace w ++ evs /\
    in_order (map kind evs) quote_calls = true /\
    Forall (fun ev => kind ev = KDecimals \/ kind ev = KQuote) evs.
Proof.
  assert (Hsub : forall ks pattern,
             in_order ks pattern = true -> forall k, In k ks -> In k pattern).
  { intros ks pattern. revert ks.
    induction pattern as [|p pattern IH]; intros [|k ks] H k' Hin;
      try contradiction; try discriminate.
    simpl in H. destruct (Kind_eqb k p) eqn:E.
    - destruct Hin as [<- | Hin].
      + left. destruct k, p; try discriminate; reflexivity.
      + right. eapply IH; eassumption.
    - right. eapply IH; [exact H | exact Hin]. }
  assert (Hgoal : forall evs, in_order (map kind evs) quote_calls = true ->
                  Forall (fun ev => kind ev = KDecimals \/ kind ev = KQuote) evs).
  { intros evs H. apply Forall_forall. intros ev Hin.
    pose proof (Hsub _ _ H (kind ev) (in_map kind _ _ Hin)) as Hk.
    simpl in Hk. intuition. }
  unfold quote.
  destruct (missing_parameters req);
    [exists []; split; [now rewrite app_nil_r | split; [reflexivity | constructor]] |].
  destruct (catch500_run "Error getting quote:" (quote_try rpc req) w) as [_ ->].
  destruct (quote_try_in_order req w) as (evs & Htrace & Horder).
  exists evs. split; [exact Htrace | split; [exact Horder | now apply Hgoal]].
Qed.


(** Case analysis on where in a trace an event lies. *)
Ltac locate_event :=
  repeat match goal with
    | H : In _ (_ ++ _) |- _ => apply in_app_or in H; destruct H as [H | H]
    | H : In _ (_ :: _) |- _ => destruct H as [H | H]
    | H : In _ [] |- _ => destruct H
    | H : In _ (map _ _) |- _ =>
        apply in_map_iff in H; destruct H as (? & H & ?)
    | H : ?decs = [] \/ _ |- _ =>
        destruct H as [-> | (? & ? & ? & -> & ?)]
    end.

Ltac no_events :=
  exists []; split; [now rewrite app_nil_r | intros ? []].



Ltac lift_to_swap lemma :=
  unfold swap;
  destruct (JS.falsy (authorization _)); [no_events |];
  destruct (missing_parameters _); [no_events |];
  match goal with
  | |- context [catch500 ?text ?body ?w] =>
      destruct (catch500_run text body w) as [_ ->]
  end;
  apply lemma.




Lemma swap_try_approval_mined (req : Request) w :
  exists evs,
    trace (snd (swap_try rpc Date_now Wallet req w)) = trace w ++ evs /\
    forall ev_p ev_q,
      In ev_p evs -> In ev_q evs ->
      kind ev_p = KApprove -> kind ev_q = KQuote ->
      exists tokenInAddress tx receipt,
        ev_p = Ev (Approve tokenInAddress UNISWAP_V3_ROUTER_ADDRESS
                     Ethers.MaxUint256) (ok tx) /\
        In (Ev (Wait tx) (ok receipt)) evs.
Proof.
  unfold swap_try. exec.
  all: collect_events.
  all: intros ev_p ev_q Hin_p Hin_q Hkind_p Hkind_q; locate_event; subst;
    try discriminate Hkind_p; try discriminate Hkind_q.
  all: do 3 eexists; split; [reflexivity |];
    rewrite ?in_app_iff; simpl; auto 12.
Qed.


Ltac backwards :=
  rewrite ?rev_app_distr; simpl rev; rewrite <- ?app_assoc; simpl app.

(** X5.  A swap request is answered 200 only when the swap was submitted
    and mined: the last two calls are the submission, answered with a
    transaction, and the wait for it, answered with the receipt whose hash is
    returned. *)
Theorem swap_ok_means_mined (req : Request) w :
  status (fst (swap rpc Date_now Wallet req w)) = 200 ->
  exists evs rest params tx receipt,
    trace (snd (swap rpc Date_now Wallet req w)) = trace w ++ evs /\
    rev evs = Ev (Wait tx) (ok receipt)
              :: Ev (ExactInputSingle UNISWAP_V3_ROUTER_ADDRESS params
                       MAX_GAS_LIMIT 0) (ok tx)
              :: rest /\
    json (fst (swap rpc Date_now Wallet req w))
    = JSwap (transactionHash receipt).
Proof.
  unfold swap.
  destruct (JS.falsy (authorization req)); [intros H; discriminate H |].
  destruct (missing_parameters req); [intros H; discriminate H |].
  unfold catch500, swap_try. exec.
  all: cbn [status json fst]; intros Hstatus; try discriminate Hstatus.
  all: repeat match goal with
         | H : trace ?w = _ |- context [trace ?w] => rewrite H
         end; rewrite <- ?app_assoc.
  all: do 5 eexists; split; [reflexivity | split; [| reflexivity]].
  all: backwards; reflexivity.
Qed.

(** X6.  A well-formed swap request is answered 400 only for a balance
    that is too low: the last call is the read of the balance of the signer
    in the resolved input token, answered with less than the normalised
    amount. *)
Theorem swap_400_means_short_balance (req : Request) w :
  JS.falsy (authorization req) = false ->
  missing_parameters req = false ->
  status (fst (swap rpc Date_now Wallet req w)) = 400 ->
  exists evs rest owner tokenInAddress amountInWei balance,
    trace (snd (swap rpc Date_now Wallet req w)) = trace w ++ evs /\
    Wallet (JS.str (authorization req)) = ok owner /\
    toAddress (tokenIn req) = ok tokenInAddress /\
    fst (parseAmountIn rpc (amountIn req) (tokenIn req) w) = ok amountInWei /\
    rev evs = Ev (BalanceOf tokenInAddress owner) (ok balance) :: rest /\
    balance < amountInWei /\
    json (fst (swap rpc Date_now Wallet req w))
    = JError "Insufficient token balance.".
Proof.
  intros Hauth Hmissing. unfold swap. rewrite Hauth, Hmissing.
  unfold catch500, swap_try. exec.
  all: cbn [status json fst]; intros Hstatus; try discriminate Hstatus.
  all: repeat match goal with
         | H : trace ?w = _ |- context [trace ?w] => rewrite H
         end; rewrite <- ?app_assoc.
  all: do 6 eexists; repeat (split; [reflexivity |]).
  all: split; [backwards; reflexivity |].
  all: split; [| reflexivity].
  all: match goal with
       | H : Ethers.lt _ _ = true |- _ => apply Z.ltb_lt in H; exact H
       end.
Qed.


Lemma strict_quote_try (req : Request) :
  emits (quote_try rpc req) strict.
Proof.
  unfold quote_try.
  do 2 (apply strict_bind_left; [apply quiet_lift | intros ?]).
  apply strict_bind_left; [apply quiet_parseAmountIn | intros amountInWei].
  apply strict_bind_right; [apply strict_getBestQuote | intros [fee amountOut]].
  apply quiet_bind; [apply quiet_getTokenDecimals | intros outDecimals].
  apply quiet_bind; [apply quiet_lift | intros text]. apply quiet_ret.
Qed.

(** X7.  A quote request without a required field is answered 400 before
    any call is made.  Otherwise it is answered 200 or 500, and 500 whenever
    a read of [decimals] is rejected or the probes of all three tiers are,
    the latter with the no-liquidity message. *)
Theorem quote_status_codes (req : Request) w :
  let response := fst (quote rpc req w) in
  let after := snd (quote rpc req w) in
  (missing_parameters req = true ->
   response = {| status := 400;
                 json := JError "Missing required parameters in request body" |} /\
   after = w) /\
  (missing_parameters req = false ->
   (status response = 200 \/ status response = 500) /\
   exists evs,
     trace after = trace w ++ evs /\
     (forall ev, In ev evs -> rejected ev -> kind ev <> KQuote ->
                 status response = 500) /\
     (all_tiers_rejected evs ->
      response = {| status := 500;
                    json := JError "No valid liquidity pool found." |})).
Proof.
  cbv zeta. split.
  - intros Hmissing. unfold quote. rewrite Hmissing. split; reflexivity.
  - intros Hmissing. unfold quote. rewrite Hmissing. split.
    + unfold catch500, quote_try. exec.
      all: cbn [status fst]; auto.
    + destruct (catch500_run "Error getting quote:" (quote_try rpc req) w)
        as [Hresp Htrace].
      destruct (strict_quote_try req w) as (evs & Hevs & Hstrict & Hnone).
      exists evs. rewrite Htrace, Hresp. split; [exact Hevs | split].
      * intros ev Hin Hrej Hkind.
        destruct (Hstrict ev Hin Hrej Hkind) as [e ->]. reflexivity.
      * intros Hall. now rewrite (Hnone Hall).
Qed.

(** X8.  A quote answered 200 comes from the network: the tier and the
    raw amount are those of a probe that was answered, the tier is one of
    the configured ones, and the formatted amount is the raw amount written
    with the precision of the resolved output token, 18 for the
    wrapped-native token and otherwise what its [decimals] answered. *)
Theorem quote_ok_content (req : Request) w :
  status (fst (quote rpc req w)) = 200 ->
  exists evs tokenInAddress tokenOutAddress amountInWei fee amountOut
         outDecimals text,
    trace (snd (quote rpc req w)) = trace w ++ evs /\
    toAddress (tokenIn req) = ok tokenInAddress /\
    toAddress (tokenOut req) = ok tokenOutAddress /\
    fst (parseAmountIn rpc (amountIn req) (tokenIn req) w) = ok amountInWei /\
    json (fst (quote rpc req w))
    = JQuote fee text (Ethers.toString amountOut) /\
    Ethers.formatUnits amountOut outDecimals = ok text /\
    In fee feeTiers /\
    In (probe tokenInAddress tokenOutAddress amountInWei (fee, ok amountOut))
      evs /\
    (eq_nocase tokenOutAddress WETH_ADDRESS = true /\ outDecimals = 18 \/
     eq_nocase tokenOutAddress WETH_ADDRESS = false /\
     In (Ev (Decimals tokenOutAddress) (ok outDecimals)) evs).
Proof.
  clear Date_now Wallet. unfold quote.
  destruct (missing_parameters req); [intros H; discriminate H |].
  unfold catch500, quote_try. exec.
  all: cbn [status json fst]; intros Hstatus; try discriminate Hstatus.
  all: repeat match goal with
         | H : trace ?w = _ |- context [trace ?w] => rewrite H
         end; rewrite <- ?app_assoc.
  all: destruct (Hquoted _ _ eq_refl) as [Hprobe Htier];
    match goal with
    | Hq : trace _ = _ ++ map ?f _ |- _ => apply (in_map f) in Hprobe
    end.
  all: do 8 eexists; repeat (split; [reflexivity |]).
  all: split; [eassumption |].
  all: split; [exact Htier |].
  all: split; [rewrite ?in_app_iff; simpl; tauto |].
  all: first
         [ left; split; [assumption | unfold ok in *; congruence]
         | right; split; [assumption |];
           rewrite ?in_app_iff; simpl; auto 12 ].
Qed.


(** The trace of [/swap] past validation is that of its [try] block. *)
Lemma swap_trace (req : Request) w :
  trace (snd (swap rpc Date_now Wallet req w)) = trace w \/
  trace (snd (swap rpc Date_now Wallet req w))
  = trace (snd (swap_try rpc Date_now Wallet req w)).
Proof.
  unfold swap.
  destruct (JS.falsy (authorization req)); [now left |].
  destruct (missing_parameters req); [now left |].
  right. apply catch500_run.
Qed.



(** X9.  No quote is asked for while an approval is pending: whenever a
    swap request both sent an approval and probed the quoter, the approval
    was answered with a transaction, for the router and the largest amount,
    and the wait for that transaction was answered with a receipt. *)
Theorem swap_approval_mined_before_quote (req : Request) w :
  exists evs,
    trace (snd (swap rpc Date_now Wallet req w)) = trace w ++ evs /\
    forall ev_p ev_q,
      In ev_p evs -> In ev_q evs ->
      kind ev_p = KApprove -> kind ev_q = KQuote ->
      exists tokenInAddress tx receipt,
        ev_p = Ev (Approve tokenInAddress UNISWAP_V3_ROUTER_ADDRESS
                     Ethers.MaxUint256) (ok tx) /\
        In (Ev (Wait tx) (ok receipt)) evs.
Proof.
  destruct (swap_trace req w) as [Hsame | ->].
  - exists []. rewrite app_nil_r. split; [exact Hsame | intros ? ? []].
  - apply swap_try_approval_mined.
Qed.


(** ** The console *)

Lemma prints_silent {A} (m : M Chain A) :
  (forall w, console (snd (m w)) = console w) -> prints m.
Proof.
  intros H w. exists []. rewrite app_nil_r. split; [apply H | constructor].
Qed.

Lemma prints_ret {A} (a : A) : prints (ret (Chain := Chain) a).
Proof. now apply prints_silent. Qed.

Lemma prints_raise {A} (e : exn) : prints (raise (Chain := Chain) (A := A) e).
Proof. now apply prints_silent. Qed.

Lemma prints_lift {A} (r : result A) : prints (lift (Chain := Chain) r).
Proof. now apply prints_silent. Qed.

Lemma prints_now : prints (now Date_now).
Proof. now apply prints_silent. Qed.

Lemma prints_await {T} (c : Call T) : prints (await rpc c).
Proof.
  apply prints_silent. intros w. unfold await.
  now destruct (rpc T c (chain w)) as [r ch].
Qed.

Lemma prints_console_log (text : string) :
  prints (console_log (Chain := Chain) text None).
Proof.
  intros w. exists [(text, None)]. split; [reflexivity |].
  constructor; [reflexivity | constructor].
Qed.

Lemma prints_bind {A B} (m : M Chain A) (k : A -> M Chain B) :
  prints m -> (forall a, prints (k a)) -> prints (bind m k).
Proof.
  intros Hm Hk w. destruct (Hm w) as (lines1 & Hc1 & Hp1). unfold bind.
  destruct (m w) as [[e | a] w1]; simpl in *.
  - now exists lines1.
  - destruct (Hk a w1) as (lines2 & Hc2 & Hp2).
    exists (lines1 ++ lines2). rewrite Hc2, Hc1, app_assoc.
    split; [reflexivity | apply <- Forall_app; now split].
Qed.

Lemma tier_line_plain (attempts : list (Z * result Ethers.BigNumber)) :
  Forall plain (map tier_line attempts).
Proof.
  induction attempts as [|[fee [e | amountOut]] attempts IH];
    constructor; solve [reflexivity | exact IH].
Qed.

Lemma tryTiers_lines tokenIn tokenOut amountIn (tiers : list Z) w :
  exists attempts,
    trace (snd (tryTiers rpc tiers tokenIn tokenOut amountIn w))
    = trace w ++ map (probe tokenIn tokenOut amountIn) attempts /\
    console (snd (tryTiers rpc tiers tokenIn tokenOut amountIn w))
    = console w ++ map tier_line attempts.
Proof.
  revert w. induction tiers as [|fee tiers IH]; intros w.
  - exists []. simpl. now rewrite !app_nil_r.
  - simpl. unfold await.
    destruct (rpc _ (QuoteExactInputSingle QUOTER_ADDRESS tokenIn tokenOut fee
                       amountIn 0) (chain w)) as [[e | amountOut] ch].
    + unfold bind, console_log. simpl.
      match goal with
      | |- context [tryTiers rpc tiers tokenIn tokenOut amountIn ?w1] =>
          destruct (IH w1) as (attempts & Htrace & Hconsole)
      end.
      exists ((fee, inl e) :: attempts).
      simpl in Htrace, Hconsole. rewrite Htrace, Hconsole, <- !app_assoc.
      split; reflexivity.
    + exists [(fee, ok amountOut)]. split; reflexivity.
Qed.

(** X14.  [getBestQuote] writes one console line for every probe, in the
    order of the probes: the tier with the quoted amount for an answered
    probe, the tier with the message of the error for a rejected one. *)
Theorem getBestQuote_log tokenIn tokenOut amountIn w :
  exists attempts,
    trace (snd (getBestQuote rpc tokenIn tokenOut amountIn w))
    = trace w ++ map (probe tokenIn tokenOut amountIn) attempts /\
    console (snd (getBestQuote rpc tokenIn tokenOut amountIn w))
    = console w ++ map tier_line attempts.
Proof. apply tryTiers_lines. Qed.

Lemma prints_getBestQuote tokenIn tokenOut amountIn :
  prints (getBestQuote rpc tokenIn tokenOut amountIn).
Proof.
  intros w.
  destruct (tryTiers_lines tokenIn tokenOut amountIn feeTiers w)
    as (attempts & _ & Hconsole).
  exists (map tier_line attempts). split; [exact Hconsole | apply tier_line_plain].
Qed.

Lemma prints_getTokenDecimals (tokenAddress : string) :
  prints (getTokenDecimals rpc tokenAddress).
Proof.
  unfold getTokenDecimals.
  destruct (String.eqb _ _); [apply prints_ret | apply prints_await].
Qed.

Lemma prints_parseAmountIn (amount tokenRef : JS.value) :
  prints (parseAmountIn rpc amount tokenRef).
Proof.
  unfold parseAmountIn. destruct (JS.falsy amount); [apply prints_raise |].
  apply prints_bind; [apply prints_lift | intros tokenAddress].
  apply prints_bind; [apply prints_getTokenDecimals | intros decimals].
  apply prints_lift.
Qed.

Ltac prints_step :=
  first
    [ apply prints_ret | apply prints_lift | apply prints_console_log
    | apply prints_now | apply prints_parseAmountIn | apply prints_await
    | apply prints_getBestQuote | apply prints_getTokenDecimals
    | apply prints_bind; [| intros ?]
    | match goal with
      | |- prints (if ?b then _ else _) => destruct b
      | |- prints (let (_, _) := ?q in _) => destruct q
      end ].

Lemma prints_swap_try (req : Request) : prints (swap_try rpc Date_now Wallet req).
Proof. unfold swap_try. repeat prints_step. Qed.

Lemma prints_quote_try (req : Request) : prints (quote_try rpc req).
Proof. unfold quote_try. repeat prints_step. Qed.

(** What [catch500] adds to the console of a body that prints plain lines:
    nothing when the body returns, the caught error under [text] when it
    throws. *)
Lemma catch500_console (text : string) (body : M Chain Response) w :
  prints body ->
  exists lines,
    console (snd (catch500 text body w)) = console w ++ lines /\
    match fst (body w) with
    | inr response => fst (catch500 text body w) = response /\ Forall plain lines
    | inl error =>
        fst (catch500 text body w)
        = {| status := 500; json := JError (message error) |} /\
        exists before,
          lines = before ++ [(text, Some error)] /\ Forall plain before
    end.
Proof.
  intros Hbody. destruct (Hbody w) as (lines & Hconsole & Hplain).
  unfold catch500. destruct (body w) as [[e | response] w']; simpl in *.
  - exists (lines ++ [(text, Some e)]). rewrite Hconsole, app_assoc.
    split; [reflexivity | split; [reflexivity |]]. now exists lines.
  - now exists lines.
Qed.

Lemma swap_try_status (req : Request) w response :
  fst (swap_try rpc Date_now Wallet req w) = ok response ->
  status response = 200 \/ status response = 400.
Proof.
  unfold swap_try. exec; cbn [fst]; unfold ok;
    intros Hrun; try discriminate Hrun; injection Hrun as <-; cbn; auto.
Qed.

Lemma quote_try_status (req : Request) w response :
  fst (quote_try rpc req w) = ok response -> status response = 200.
Proof.
  unfold quote_try. exec; cbn [fst]; unfold ok;
    intros Hrun; try discriminate Hrun; injection Hrun as <-; reflexivity.
Qed.

(** X15.  What the two handlers leave on the console.  A request that is
    not answered 500 writes plain lines only; a request answered 500 writes
    plain lines and then, as its last line, the caught error object under
    the heading of its handler, and the body of the response carries the
    message of that very error. *)
Theorem errors_are_logged (req : Request) w :
  (let run := swap rpc Date_now Wallet req w in
   exists lines,
     console (snd run) = console w ++ lines /\
     ((status (fst run) <> 500 /\ Forall plain lines) \/
      (exists error before,
         status (fst run) = 500 /\
         json (fst run) = JError (message error) /\
         lines = before ++ [("Error executing swap:", Some error)] /\
         Forall plain before))) /\
  (let run := quote rpc req w in
   exists lines,
     console (snd run) = console w ++ lines /\
     ((status (fst run) <> 500 /\ Forall plain lines) \/
      (exists error before,
         status (fst run) = 500 /\
         json (fst run) = JError (message error) /\
         lines = before ++ [("Error getting quote:", Some error)] /\
         Forall plain before))).
Proof.
  split; cbv zeta.
  - unfold swap.
    destruct (JS.falsy (authorization req)).
    { exists []. rewrite app_nil_r. split; [reflexivity |].
      left. split; [discriminate | constructor]. }
    destruct (missing_parameters req).
    { exists []. rewrite app_nil_r. split; [reflexivity |].
      left. split; [discriminate | constructor]. }
    destruct (catch500_console "Error executing swap:"
                (swap_try rpc Date_now Wallet req) w (prints_swap_try req))
      as (lines & Hconsole & Hrun).
    exists lines. split; [exact Hconsole |].
    destruct (fst (swap_try rpc Date_now Wallet req w)) as [e | response] eqn:E.
    + destruct Hrun as (-> & before & -> & Hplain). right. now exists e, before.
    + destruct Hrun as (-> & Hplain). left. split; [| exact Hplain].
      destruct (swap_try_status req w response E) as [-> | ->]; discriminate.
  - unfold quote.
    destruct (missing_parameters req).
    { exists []. rewrite app_nil_r. split; [reflexivity |].
      left. split; [discriminate | constructor]. }
    destruct (catch500_console "Error getting quote:"
                (quote_try rpc req) w (prints_quote_try req))
      as (lines & Hconsole & Hrun).
    exists lines. split; [exact Hconsole |].
    destruct (fst (quote_try rpc req w)) as [e | response] eqn:E.
    + destruct Hrun as (-> & before & -> & Hplain). right. now exists e, before.
    + destruct Hrun as (-> & Hplain). left. split; [| exact Hplain].
      rewrite (quote_try_status req w response E). discriminate.
Qed.
End Call_order.

(** ** More on resolution and the slippage policy *)

(** X10.  For an output other than the stable asset the minimum output
    is computed, is not negative, does not exceed the quoted amount, and
    lies between 97% and 99% of it. *)
Theorem amountOutMinimum_within_bounds (tokenIn tokenOut : string)
    (amountOut : Ethers.BigNumber) :
  0 <= amountOut ->
  eq_nocase tokenOut STABLE_ASSET = false ->
  exists minimum,
    amountOutMinimum amountOut (calculateSlippage tokenIn tokenOut) = ok minimum /\
    0 <= minimum <= amountOut /\
    97 * amountOut - 100 < 100 * minimum <= 99 * amountOut.
Proof.
  intros Hpos Hstable. rewrite calculateSlippage_cases, Hstable, andb_false_r.
  destruct (eq_nocase tokenIn WETH_ADDRESS || eq_nocase tokenOut WETH_ADDRESS).
  - rewrite amountOutMinimum_one_percent. eexists. split; [reflexivity |].
    rewrite Z.quot_div_nonneg by lia.
    pose proof (Z.div_mod (amountOut * 99) 100).
    pose proof (Z.mod_pos_bound (amountOut * 99) 100). lia.
  - rewrite amountOutMinimum_ceiling. eexists. split; [reflexivity |].
    rewrite Z.quot_div_nonneg by lia.
    pose proof (Z.div_mod (amountOut * 97) 100).
    pose proof (Z.mod_pos_bound (amountOut * 97) 100). lia.
Qed.

Lemma amountOutMinimum_within_bounds_witness :
  exists minimum,
    amountOutMinimum 1000001 (calculateSlippage WETH_ADDRESS "0xTOKEN")
    = ok minimum /\
    0 <= minimum <= 1000001 /\
    97 * 1000001 - 100 < 100 * minimum <= 99 * 1000001.
Proof.
  apply (amountOutMinimum_within_bounds WETH_ADDRESS "0xTOKEN" 1000001);
    [intros H; discriminate H | reflexivity].
Defined.

(** X11.  Resolution is idempotent and never gives the empty string: a
    resolved token resolves to itself, and it is the wrapped-native address
    up to case exactly when the token given was the native alias or that
    address, up to case. *)
Theorem toAddress_idempotent (token : JS.value) (tokenAddress : string) :
  toAddress token = ok tokenAddress ->
  toAddress (Some tokenAddress) = ok tokenAddress /\
  tokenAddress <> "" /\
  (eq_nocase tokenAddress WETH_ADDRESS = true <->
   eq_nocase (JS.str token) NATIVE_ALIAS = true \/
   eq_nocase (JS.str token) WETH_ADDRESS = true).
Proof.
  intros H. apply toAddress_ok in H as [Hfalsy ->].
  apply falsy_false in Hfalsy as [_ Hne].
  destruct (eq_nocase (JS.str token) NATIVE_ALIAS) eqn:Halias.
  - split; [reflexivity | split; [discriminate |]].
    split; [now left | reflexivity].
  - split; [| split; [exact Hne |]].
    + unfold toAddress. cbn [JS.falsy JS.str].
      apply String.eqb_neq in Hne. rewrite Hne.
      rewrite eq_nocase_alias in Halias. now rewrite Halias.
    + split; [now right | intros [H | H]; [discriminate H | exact H]].
Qed.

Lemma toAddress_idempotent_witness :
  toAddress (Some WETH_ADDRESS) = ok WETH_ADDRESS /\
  WETH_ADDRESS <> "" /\
  (eq_nocase WETH_ADDRESS WETH_ADDRESS = true <->
   eq_nocase (JS.str (Some "ETH")) NATIVE_ALIAS = true \/
   eq_nocase (JS.str (Some "ETH")) WETH_ADDRESS = true).
Proof. apply (toAddress_idempotent (Some "ETH") WETH_ADDRESS). reflexivity. Defined.

(** X12.  The slippage bound does not depend on the case in which the two
    tokens are written. *)
Theorem calculateSlippage_ignores_case (tokenIn tokenIn' tokenOut tokenOut' : string) :
  eq_nocase tokenIn tokenIn' = true ->
  eq_nocase tokenOut tokenOut' = true ->
  calculateSlippage tokenIn tokenOut = calculateSlippage tokenIn' tokenOut'.
Proof.
  rewrite !eq_nocase_lower, !String.eqb_eq. intros Hin Hout.
  unfold calculateSlippage. now rewrite Hin, Hout.
Qed.

Lemma calculateSlippage_ignores_case_witness :
  calculateSlippage WETH_ADDRESS "usdt"
  = calculateSlippage (JS.toLowerCase WETH_ADDRESS) "USDT".
Proof.
  apply (calculateSlippage_ignores_case WETH_ADDRESS (JS.toLowerCase WETH_ADDRESS)
           "usdt" "USDT"); reflexivity.
Defined.

(** X13.  The bound depends on the direction of the trade only through
    the stable asset: it is the same in both directions when neither token
    is the stable asset, while selling the wrapped-native token for the
    stable asset is bounded by 0.5% and the opposite trade by 1.0%. *)
Theorem calculateSlippage_direction (tokenIn tokenOut : string) :
  (eq_nocase tokenIn STABLE_ASSET = false ->
   eq_nocase tokenOut STABLE_ASSET = false ->
   calculateSlippage tokenIn tokenOut = calculateSlippage tokenOut tokenIn) /\
  (eq_nocase tokenIn WETH_ADDRESS = true ->
   eq_nocase tokenOut STABLE_ASSET = true ->
   calculateSlippage tokenIn tokenOut = 0.005%float /\
   calculateSlippage tokenOut tokenIn = 0.01%float).
Proof.
  rewrite !calculateSlippage_cases. split.
  - intros -> ->. rewrite !andb_false_r. now rewrite orb_comm.
  - intros Hin Hout. rewrite Hin, Hout. split; [reflexivity |].
    assert (Hns : eq_nocase tokenIn STABLE_ASSET = false).
    { destruct (eq_nocase tokenIn STABLE_ASSET) eqn:E; [| reflexivity].
      rewrite eq_nocase_lower in Hin, E. apply String.eqb_eq in Hin, E.
      rewrite Hin in E. discriminate E. }
    rewrite Hns, andb_false_r, orb_true_r. reflexivity.
Qed.

Lemma calculateSlippage_direction_witness :
  calculateSlippage "0xTOKEN" Mock.TOKEN6 = calculateSlippage Mock.TOKEN6 "0xTOKEN" /\
  calculateSlippage WETH_ADDRESS "usdt" = 0.005%float /\
  calculateSlippage "usdt" WETH_ADDRESS = 0.01%float.
Proof.
  destruct (calculateSlippage_direction "0xTOKEN" Mock.TOKEN6) as [Hsym _].
  destruct (calculateSlippage_direction WETH_ADDRESS "usdt") as [_ Hstable].
  split; [apply Hsym; reflexivity | apply Hstable; reflexivity].
Defined.

(** ** Runs against the scripted network *)

Lemma swap_ok_means_mined_witness :
  exists evs rest params tx receipt,
    trace (snd (Mock.swap Mock.quotes_3000 (10 ^ 20) 0
                  (Mock.request Mock.KEY "10" "eth" "0xTOKEN")))
    = trace Mock.start ++ evs /\
    rev evs = Ev (Wait tx) (ok receipt)
              :: Ev (ExactInputSingle UNISWAP_V3_ROUTER_ADDRESS params
                       MAX_GAS_LIMIT 0) (ok tx)
              :: rest /\
    json (fst (Mock.swap Mock.quotes_3000 (10 ^ 20) 0
                 (Mock.request Mock.KEY "10" "eth" "0xTOKEN")))
    = JSwap (transactionHash receipt).
Proof.
  apply (swap_ok_means_mined (Mock.rpc Mock.quotes_3000 (10 ^ 20) 0)
           Mock.Date_now Mock.Wallet
           (Mock.request Mock.KEY "10" "eth" "0xTOKEN") Mock.start).
  reflexivity.
Defined.

Lemma swap_400_means_short_balance_witness :
  exists evs rest owner tokenInAddress amountInWei balance,
    trace (snd (Mock.swap Mock.quotes_3000 5 0
                  (Mock.request Mock.KEY "10" Mock.TOKEN6 "eth")))
    = trace Mock.start ++ evs /\
    Mock.Wallet Mock.KEY = ok owner /\
    toAddress (Some Mock.TOKEN6) = ok tokenInAddress /\
    fst (parseAmountIn (Mock.rpc Mock.quotes_3000 5 0) (Some "10")
           (Some Mock.TOKEN6) Mock.start) = ok amountInWei /\
    rev evs = Ev (BalanceOf tokenInAddress owner) (ok balance) :: rest /\
    balance < amountInWei /\
    json (fst (Mock.swap Mock.quotes_3000 5 0
                 (Mock.request Mock.KEY "10" Mock.TOKEN6 "eth")))
    = JError "Insufficient token balance.".
Proof.
  apply (swap_400_means_short_balance (Mock.rpc Mock.quotes_3000 5 0)
           Mock.Date_now Mock.Wallet
           (Mock.request Mock.KEY "10" Mock.TOKEN6 "eth") Mock.start);
    reflexivity.
Defined.



Lemma swap_approval_mined_before_quote_witness :
  exists tokenInAddress tx receipt,
    Ev (Approve WETH_ADDRESS UNISWAP_V3_ROUTER_ADDRESS Ethers.MaxUint256)
       (ok {| hash := "0xa1" |})
    = Ev (Approve tokenInAddress UNISWAP_V3_ROUTER_ADDRESS Ethers.MaxUint256)
         (ok tx) /\
    In (Ev (Wait tx) (ok receipt))
      (trace (snd (Mock.swap Mock.quotes_3000 (10 ^ 20) 0
                     (Mock.request Mock.KEY "10" "eth" "0xTOKEN")))).
Proof.
  destruct (swap_approval_mined_before_quote
              (Mock.rpc Mock.quotes_3000 (10 ^ 20) 0) Mock.Date_now Mock.Wallet
              (Mock.request Mock.KEY "10" "eth" "0xTOKEN") Mock.start)
    as (evs & Htrace & Hmined).
  unfold Mock.swap. rewrite Htrace. vm_compute in Htrace. subst evs.
  apply (Hmined _ (probe WETH_ADDRESS "0xTOKEN" (10 ^ 19) (3000, ok 5000000000)));
    [| | reflexivity | reflexivity].
  - do 2 right. left. reflexivity.
  - do 5 right. left. reflexivity.
Defined.

Lemma quote_status_codes_witness :
  fst (Mock.quote Mock.quotes_3000
         {| authorization := None; amountIn := None;
            tokenIn := Some "eth"; tokenOut := Some "0xTOKEN" |})
  = {| status := 400;
       json := JError "Missing required parameters in request body" |} /\
  status (fst (Mock.quote Mock.quotes_3000
                 (Mock.quote_request "10" "eth" "0xNOTOKEN"))) = 500 /\
  fst (Mock.quote Mock.no_quotes (Mock.quote_request "10" "eth" "0xTOKEN"))
  = {| status := 500; json := JError "No valid liquidity pool found." |}.
Proof.
  split; [| split].
  - apply (quote_status_codes (Mock.rpc Mock.quotes_3000 0 0) _ Mock.start).
    reflexivity.
  - destruct (quote_status_codes (Mock.rpc Mock.quotes_3000 0 0)
                (Mock.quote_request "10" "eth" "0xNOTOKEN") Mock.start)
      as (_ & H).
    destruct (H eq_refl) as (_ & evs & Htrace & Hcall & _).
    vm_compute in Htrace. subst evs.
    apply (Hcall (Ev (Decimals "0xNOTOKEN") Mock.reverted)).
    + do 2 right. left. reflexivity.
    + eexists. reflexivity.
    + discriminate.
  - destruct (quote_status_codes (Mock.rpc Mock.no_quotes 0 0)
                (Mock.quote_request "10" "eth" "0xTOKEN") Mock.start)
      as (_ & H).
    destruct (H eq_refl) as (_ & evs & Htrace & _ & Hnone).
    apply Hnone. vm_compute in Htrace. subst evs.
    intros fee [<- | [<- | [<- | []]]].
    + eexists. split; [left; reflexivity |].
      split; [eexists; reflexivity | exact eq_refl].
    + eexists. split; [right; left; reflexivity |].
      split; [eexists; reflexivity | exact eq_refl].
    + eexists. split; [do 2 right; left; reflexivity |].
      split; [eexists; reflexivity | exact eq_refl].
Defined.

Lemma quote_ok_content_witness :
  exists evs tokenInAddress tokenOutAddress amountInWei fee amountOut
         outDecimals text,
    trace (snd (Mock.quote Mock.quotes_3000
                  (Mock.quote_request "10" "eth" "0xTOKEN")))
    = trace Mock.start ++ evs /\
    toAddress (Some "eth") = ok tokenInAddress /\
    toAddress (Some "0xTOKEN") = ok tokenOutAddress /\
    fst (parseAmountIn (Mock.rpc Mock.quotes_3000 0 0) (Some "10") (Some "eth")
           Mock.start) = ok amountInWei /\
    json (fst (Mock.quote Mock.quotes_3000
                 (Mock.quote_request "10" "eth" "0xTOKEN")))
    = JQuote fee text (Ethers.toString amountOut) /\
    Ethers.formatUnits amountOut outDecimals = ok text /\
    In fee feeTiers /\
    In (probe tokenInAddress tokenOutAddress amountInWei (fee, ok amountOut))
      evs /\
    (eq_nocase tokenOutAddress WETH_ADDRESS = true /\ outDecimals = 18 \/
     eq_nocase tokenOutAddress WETH_ADDRESS = false /\
     In (Ev (Decimals tokenOutAddress) (ok outDecimals)) evs).
Proof.
  apply (quote_ok_content (Mock.rpc Mock.quotes_3000 0 0)
           (Mock.quote_request "10" "eth" "0xTOKEN") Mock.start).
  reflexivity.
Defined.

Lemma errors_are_logged_witness :
  exists lines,
    console (snd (Mock.swap Mock.quotes_3000 (10 ^ 20) 0
                    (Mock.request "secret" "10" "eth" "0xTOKEN")))
    = console Mock.start ++ lines /\
    ((status (fst (Mock.swap Mock.quotes_3000 (10 ^ 20) 0
                     (Mock.request "secret" "10" "eth" "0xTOKEN"))) <> 500 /\
      Forall plain lines) \/
     (exists error before,
        status (fst (Mock.swap Mock.quotes_3000 (10 ^ 20) 0
                       (Mock.request "secret" "10" "eth" "0xTOKEN"))) = 500 /\
        json (fst (Mock.swap Mock.quotes_3000 (10 ^ 20) 0
                     (Mock.request "secret" "10" "eth" "0xTOKEN")))
        = JError (message error) /\
        lines = before ++ [("Error executing swap:", Some error)] /\
        Forall plain before)).
Proof.
  apply (errors_are_logged (Mock.rpc Mock.quotes_3000 (10 ^ 20) 0)
           Mock.Date_now Mock.Wallet
           (Mock.request "secret" "10" "eth" "0xTOKEN") Mock.start).
Defined.
